(** * Crypto Analytics (Homework 4) frontend: a shallow embedding

    The development follows the Next.js sources of the repository:

    - the comparison page ([CompareContent], [handleCompare]),
    - the dashboard ([Dashboard]: [sortedCoins], [topMovers]),
    - the coin-detail page ([CoinDetail]) and the card that links to it
      ([CryptoCard]),
    - the two chart components ([Sparkline], [CandlestickChart]).

    JavaScript values that the pages receive from the gateway are JSON, so
    numbers are modelled as rationals [Q] (every finite double is one, and
    the code only tests them for truthiness or for the sign of a
    difference), strings as [string] and objects with computed keys as
    [gmap string jsval]. *)

From Stdlib Require Import QArith Qabs Qminmax Lqa Ascii.
From stdpp Require Import gmap strings list sorting pretty.

Local Open Scope string_scope.

(** ** JavaScript primitives used by the pages *)

Module JS.

(** The JSON-born values that reach the merge and the sort comparators. *)
Inductive jsval :=
  | JUndefined
  | JNull
  | JNum (q : Q)
  | JStr (s : string).

(** ToBoolean: [undefined], [null], [0] and the empty string are falsy. *)
Definition truthy (v : jsval) : bool :=
  match v with
  | JUndefined | JNull => false
  | JNum q => negb (Qeq_bool q 0)
  | JStr s => negb (String.eqb s "")
  end.

(** [a || b] *)
Definition or (a b : jsval) : jsval := if truthy a then a else b.

(** Relational comparison of two strings, code unit by code unit. *)
Definition str_le (a b : string) : Prop := String.compare a b ≠ Gt.
Definition str_lt (a b : string) : Prop := String.compare a b = Lt.

(** SortCompare without a [comparefn]: both sides are strings here. *)
Definition default_compare (a b : string) : Q :=
  match String.compare a b with
  | Lt => (-1)%Q
  | Eq => 0%Q
  | Gt => 1%Q
  end.

(** [Array.prototype.sort(comparefn)]. ECMAScript fixes the result for a
    consistent comparator (sorted, stable) and leaves the algorithm open;
    a stable insertion sort is one such algorithm. [x] goes in front of
    [y] when [comparefn x y <= 0]. *)
Section sort.
Context {A : Type} (comparefn : A → A → Q).

Fixpoint sort_insert (x : A) (l : list A) : list A :=
  match l with
  | [] => [x]
  | y :: l' =>
      if Qle_bool (comparefn x y) 0 then x :: y :: l'
      else y :: sort_insert x l'
  end.

Definition Array_sort (l : list A) : list A := foldr sort_insert [] l.

(** "[x] may stay in front of [y]" for this comparator. *)
Definition cmp_le (x y : A) : Prop := Qle_bool (comparefn x y) 0 = true.
End sort.

(** [Set.prototype.add] on a set of strings, kept in insertion order. *)
Definition Set_add (x : string) (s : list string) : list string :=
  if decide (x ∈ s) then s else s ++ [x].

(** [Array.prototype.find] *)
Definition Array_find {A} (p : A → bool) (l : list A) : option A :=
  List.find p l.

(** [Array.prototype.slice(0, n)] *)
Definition Array_slice0 {A} (n : nat) (l : list A) : list A := take n l.

(** ASCII case mapping; [String.prototype.toLowerCase] and [toUpperCase]
    act like this on the code units below 128. *)
Definition is_upper (c : ascii) : bool :=
  let n := N_of_ascii c in ((65 <=? n) && (n <=? 90))%N.
Definition is_lower (c : ascii) : bool :=
  let n := N_of_ascii c in ((97 <=? n) && (n <=? 122))%N.

Definition lower_char (c : ascii) : ascii :=
  if is_upper c then ascii_of_N (N_of_ascii c + 32) else c.
Definition upper_char (c : ascii) : ascii :=
  if is_lower c then ascii_of_N (N_of_ascii c - 32) else c.

Fixpoint map_string (f : ascii → ascii) (s : string) : string :=
  match s with
  | EmptyString => EmptyString
  | String c s' => String (f c) (map_string f s')
  end.

Definition toLowerCase : string → string := map_string lower_char.
Definition toUpperCase : string → string := map_string upper_char.

(** Ticker symbols: upper-case letters and digits. *)
Definition is_digit (c : ascii) : bool :=
  let n := N_of_ascii c in ((48 <=? n) && (n <=? 57))%N.

Fixpoint all_chars (p : ascii → bool) (s : string) : bool :=
  match s with
  | EmptyString => true
  | String c s' => p c && all_chars p s'
  end.

Definition ticker (s : string) : bool :=
  all_chars (λ c, is_upper c || is_digit c) s.

End JS.


(** ** Calendar days written as [YYYY-MM-DD] *)

Module IsoDate.

Record day := Day { year : nat; month : nat; mday : nat }.

Definition digit (n : nat) : ascii := ascii_of_nat (48 + n).

(** Two decimal digits, then the rest of the text. *)
Definition two (n : nat) (rest : string) : string :=
  String (digit (n / 10)) (String (digit (n mod 10)) rest).

Definition print (d : day) : string :=
  two (year d / 100) (two (year d mod 100)
    (String "-" (two (month d) (String "-" (two (mday d) ""))))).

Definition wf (d : day) : Prop :=
  year d < 100 * 100 ∧ month d < 100 ∧ mday d < 100.

(** The calendar order. *)
Definition before (a b : day) : Prop :=
  year a < year b ∨
  (year a = year b ∧
   (month a < month b ∨ (month a = month b ∧ mday a < mday b))).

End IsoDate.
(** ** The comparison page: [CompareContent] *)

Module Compare.
Import JS.

(** One element of [compareResult.coinN.data]; the page reads two fields. *)
Record bar := Bar { date : string; close : jsval }.

(** [compareResult.coinN] *)
Record coin_series := CoinSeries { symbol : string; data : list bar }.

(** [coinN.data.forEach(d => dates.add(d.date))] *)
Definition add_dates (d : list bar) (dates : list string) : list string :=
  foldl (λ s b, Set_add (date b) s) dates d.

(** [dN?.close] *)
Definition close_of (d : option bar) : jsval :=
  match d with
  | Some b => close b
  | None => JUndefined
  end.

(** The object literal [{date, [sym1]: v1, [sym2]: v2}]: properties are
    defined from left to right, a later key overwrites an equal earlier one. *)
Definition entry (dt sym1 : string) (v1 : jsval) (sym2 : string) (v2 : jsval)
  : gmap string jsval :=
  <[sym2 := v2]> (<[sym1 := v1]> (<["date" := JStr dt]> ∅)).

(** The set [dates] once both series went through it. *)
Definition all_dates (c1 c2 : coin_series) : list string :=
  add_dates (data c2) (add_dates (data c1) []).

(** The array [merged] at the end of the [forEach] over the sorted dates. *)
Definition merged (c1 c2 : coin_series) : list (gmap string jsval) :=
  (λ dt,
     let d1 := Array_find (λ d, String.eqb (date d) dt) (data c1) in
     let d2 := Array_find (λ d, String.eqb (date d) dt) (data c2) in
     entry dt (symbol c1) (or (close_of d1) JNull)
              (symbol c2) (or (close_of d2) JNull))
  <$> Array_sort default_compare (all_dates c1 c2).

(** The date an entry carries, when its [date] property is a string. *)
Definition entry_date (e : gmap string jsval) : option string :=
  match e !! "date" with
  | Some (JStr d) => Some d
  | _ => None
  end.

(** The argument of [setData]. *)
Record compare_data := CompareData {
  cd_coin1 : string;
  cd_coin2 : string;
  cd_data : list (gmap string jsval)
}.

Definition data_of (c1 c2 : coin_series) : compare_data :=
  {| cd_coin1 := symbol c1; cd_coin2 := symbol c2; cd_data := merged c1 c2 |}.

(** *** The handler [handleCompare] *)

(** The body of [/coins/:id] as the page keeps it: an object, or [null]. *)
Definition details : Type := option (gmap string jsval).

(** The body of [/compare]. A leg the gateway left out reads as
    [undefined]. *)
Record compare_result := CompareResult {
  coin1 : option coin_series;
  coin2 : option coin_series
}.

(** The [useState] cells of [CompareContent] that the handler touches. *)
Record state := State {
  st_coin1 : string;
  st_coin2 : string;
  st_data : option compare_data;
  st_coin1Details : details;
  st_coin2Details : details;
  st_loading : bool;
  st_days : N
}.

Definition setLoading (b : bool) (st : state) : state :=
  {| st_coin1 := st_coin1 st; st_coin2 := st_coin2 st; st_data := st_data st;
     st_coin1Details := st_coin1Details st;
     st_coin2Details := st_coin2Details st;
     st_loading := b; st_days := st_days st |}.

(** [setData(..); setCoin1Details(..); setCoin2Details(..)] *)
Definition setResult (d : compare_data) (d1 d2 : details) (st : state) : state :=
  {| st_coin1 := st_coin1 st; st_coin2 := st_coin2 st; st_data := Some d;
     st_coin1Details := d1; st_coin2Details := d2;
     st_loading := st_loading st; st_days := st_days st |}.

Definition setCoin1 (v : string) (st : state) : state :=
  {| st_coin1 := v; st_coin2 := st_coin2 st; st_data := st_data st;
     st_coin1Details := st_coin1Details st;
     st_coin2Details := st_coin2Details st;
     st_loading := st_loading st; st_days := st_days st |}.

Definition setCoin2 (v : string) (st : state) : state :=
  {| st_coin1 := st_coin1 st; st_coin2 := v; st_data := st_data st;
     st_coin1Details := st_coin1Details st;
     st_coin2Details := st_coin2Details st;
     st_loading := st_loading st; st_days := st_days st |}.

Definition setDays (n : N) (st : state) : state :=
  {| st_coin1 := st_coin1 st; st_coin2 := st_coin2 st; st_data := st_data st;
     st_coin1Details := st_coin1Details st;
     st_coin2Details := st_coin2Details st;
     st_loading := st_loading st; st_days := n |}.

(** The [onChange] handlers of the three [select] elements. *)
Inductive selection :=
  | SelectCoin1 (v : string)
  | SelectCoin2 (v : string)
  | SelectDays (n : N).

Definition select (s : selection) : state → state :=
  match s with
  | SelectCoin1 v => setCoin1 v
  | SelectCoin2 v => setCoin2 v
  | SelectDays n => setDays n
  end.

(** What the handler does to the outside. *)
Inductive effect :=
  | Alert (msg : string)
  | Fetch (url : string).

(** The three URLs handed to [fetch], in the order of the array literal. *)
Definition request_urls (API_URL : string) (st : state) : list string :=
  [ API_URL ++ "/compare?coin1=" ++ st_coin1 st ++ "&coin2=" ++ st_coin2 st
      ++ "&days=" ++ pretty (st_days st);
    API_URL ++ "/coins/" ++ st_coin1 st;
    API_URL ++ "/coins/" ++ st_coin2 st ].

(** [handleCompare] up to its [await]: the two guards, [setLoading(true)]
    and the three fetches. The boolean tells whether the handler is now
    suspended on [Promise.all]. *)
Definition handleCompare (API_URL : string) (st : state)
  : state * list effect * bool :=
  if negb (truthy (JStr (st_coin1 st))) || negb (truthy (JStr (st_coin2 st)))
  then (st, [Alert "Select both coins"], false)
  else if String.eqb (st_coin1 st) (st_coin2 st)
  then (st, [Alert "Select different coins"], false)
  else (setLoading true st, Fetch <$> request_urls API_URL st, true).

(** How a promise ends. *)
Inductive outcome (A : Type) :=
  | Fulfilled (a : A)
  | Rejected (reason : string).
Arguments Fulfilled {A} a.
Arguments Rejected {A} reason.

Inductive promise (A : Type) :=
  | Pending
  | Settled (o : outcome A).
Arguments Pending {A}.
Arguments Settled {A} o.

(** The message of the [TypeError] raised by [compareResult.coinN.data]
    when [coinN] is [undefined]; its wording is the engine's. *)
Definition type_error (leg : string) : string :=
  "Cannot read properties of undefined (reading 'data'): " ++ leg.

(** The [try] block below the [await]: it throws before anything is set
    when a leg is missing. *)
Definition try_block (r : compare_result) (d1 d2 : details) (st : state)
  : string + state :=
  match coin1 r with
  | None => inl (type_error "coin1")
  | Some c1 =>
      match coin2 r with
      | None => inl (type_error "coin2")
      | Some c2 => inr (setResult (data_of c1 c2) d1 d2 st)
      end
  end.

(** [handleCompare] from the [await] on: [try], [catch], [finally]. *)
Definition handleCompare_resume
    (o : outcome (compare_result * details * details)) (st : state)
  : state * list effect :=
  match o with
  | Rejected msg => (setLoading false st, [Alert msg])
  | Fulfilled (r, d1, d2) =>
      match try_block r d1 d2 st with
      | inl msg => (setLoading false st, [Alert msg])
      | inr st' => (setLoading false st', [])
      end
  end.

(** A handler in flight: the three promises given to [Promise.all], the
    reason of the first of them to reject, whether the handler went on
    past its [await], the page state and the effects so far. *)
Record run := Run {
  p_compare : promise compare_result;
  p_details1 : promise details;
  p_details2 : promise details;
  first_rejection : option string;
  resumed : bool;
  page : state;
  effects : list effect
}.

(** [Promise.all([p_compare, p_details1, p_details2])]: rejected as soon as
    one rejects, fulfilled once all three are. *)
Definition Promise_all (r : run)
  : promise (compare_result * details * details) :=
  match first_rejection r with
  | Some msg => Settled (Rejected msg)
  | None =>
      match p_compare r, p_details1 r, p_details2 r with
      | Settled (Fulfilled a), Settled (Fulfilled b), Settled (Fulfilled c) =>
          Settled (Fulfilled (a, b, c))
      | _, _, _ => Pending
      end
  end.

Definition note_rejection {A} (o : outcome A) (first : option string)
  : option string :=
  match first, o with
  | None, Rejected msg => Some msg
  | _, _ => first
  end.

Definition start (st : state) (effs : list effect) : run :=
  {| p_compare := Pending; p_details1 := Pending; p_details2 := Pending;
     first_rejection := None; resumed := false; page := st; effects := effs |}.

(** One move of the page while a comparison is in flight: a response
    arrives, the user changes a selection, or the suspended handler goes
    on once [Promise.all] has settled. *)
Inductive step : run → run → Prop :=
  | step_compare r o :
      p_compare r = Pending →
      step r {| p_compare := Settled o; p_details1 := p_details1 r;
                p_details2 := p_details2 r;
                first_rejection := note_rejection o (first_rejection r);
                resumed := resumed r; page := page r; effects := effects r |}
  | step_details1 r o :
      p_details1 r = Pending →
      step r {| p_compare := p_compare r; p_details1 := Settled o;
                p_details2 := p_details2 r;
                first_rejection := note_rejection o (first_rejection r);
                resumed := resumed r; page := page r; effects := effects r |}
  | step_details2 r o :
      p_details2 r = Pending →
      step r {| p_compare := p_compare r; p_details1 := p_details1 r;
                p_details2 := Settled o;
                first_rejection := note_rejection o (first_rejection r);
                resumed := resumed r; page := page r; effects := effects r |}
  | step_select r s :
      step r {| p_compare := p_compare r; p_details1 := p_details1 r;
                p_details2 := p_details2 r;
                first_rejection := first_rejection r;
                resumed := resumed r; page := select s (page r);
                effects := effects r |}
  | step_resume r o :
      resumed r = false →
      Promise_all r = Settled o →
      step r {| p_compare := p_compare r; p_details1 := p_details1 r;
                p_details2 := p_details2 r;
                first_rejection := first_rejection r;
                resumed := true;
                page := (handleCompare_resume o (page r)).1;
                effects := effects r ++ (handleCompare_resume o (page r)).2 |}.

(** While a comparison is in flight, the [data] cell either still holds
    what it held before, or all three promises are fulfilled, the handler
    went on, and [data] is the merge of both legs of the response. *)
Definition joined (d0 : option compare_data) (r : run) : Prop :=
  (resumed r = false ∧ st_data (page r) = d0) ∨
  (resumed r = true ∧
   (st_data (page r) = d0 ∨
    ∃ c1 c2 d1 d2,
      p_compare r = Settled (Fulfilled (CompareResult (Some c1) (Some c2))) ∧
      p_details1 r = Settled (Fulfilled d1) ∧
      p_details2 r = Settled (Fulfilled d2) ∧
      st_data (page r) = Some (data_of c1 c2))).

End Compare.


(** ** The dashboard: [Dashboard] *)

Module Dashboard.
Import JS.

(** An element of the [/coins] listing, with the fields the sort reads.
    A numeric field that is missing or [null] is [None]. *)
Record coin := Coin {
  symbol : string;
  currentPrice : option Q;
  priceChange24h : option Q;
  volume24h : option Q;
  volatility : option Q
}.

(** [x || 0] on such a field. *)
Definition or0 (x : option Q) : Q :=
  match x with
  | Some q => if truthy (JNum q) then q else 0%Q
  | None => 0%Q
  end.

Section comparators.
(** [String.prototype.localeCompare] is the host's collation. *)
Context (localeCompare : string → string → Q).

(** The comparator of [sortedCoins]: a [switch] on [sortBy]. *)
Definition sortedCoins_compare (sortBy : string) (a b : coin) : Q :=
  if String.eqb sortBy "symbol" then localeCompare (symbol a) (symbol b)
  else if String.eqb sortBy "price"
  then (or0 (currentPrice b) - or0 (currentPrice a))%Q
  else if String.eqb sortBy "change"
  then (or0 (priceChange24h b) - or0 (priceChange24h a))%Q
  else if String.eqb sortBy "volume"
  then (or0 (volume24h b) - or0 (volume24h a))%Q
  else if String.eqb sortBy "volatility"
  then (or0 (volatility b) - or0 (volatility a))%Q
  else 0%Q.

(** The comparator of [topMovers]. *)
Definition topMovers_compare (a b : coin) : Q :=
  (Qabs (or0 (priceChange24h b)) - Qabs (or0 (priceChange24h a)))%Q.

(** Arrays are objects: a variable holds a reference into the heap, and
    [sort] writes through it. *)
Abbreviation loc := positive.

Definition alloc (v : list coin) (h : gmap positive (list coin))
  : loc * gmap positive (list coin) :=
  let l := fresh (dom h) in (l, <[l := v]> h).

(** [[...a]]: a new array with the elements of [a]. *)
Definition spread (a : loc) (h : gmap positive (list coin))
  : option (loc * gmap positive (list coin)) :=
  v ← h !! a; Some (alloc v h).

(** [a.sort(comparefn)]: sorts [a] in place and returns [a]. *)
Definition sort (comparefn : coin → coin → Q) (a : loc)
    (h : gmap positive (list coin))
  : option (loc * gmap positive (list coin)) :=
  v ← h !! a; Some (a, <[a := Array_sort comparefn v]> h).

(** [a.slice(0, n)]: a new array. *)
Definition slice (n : nat) (a : loc) (h : gmap positive (list coin))
  : option (loc * gmap positive (list coin)) :=
  v ← h !! a; Some (alloc (Array_slice0 n v) h).

(** What one render of [Dashboard] computes from the [coins] cell. *)
Record rendered := Rendered {
  sortedCoins : loc;
  topMovers : loc;
  shown_count : nat;
  heap_after : gmap positive (list coin)
}.

Definition render (sortBy : string) (coins : loc)
    (h : gmap positive (list coin)) : option rendered :=
  '(copy1, h1) ← spread coins h;
  '(sorted, h2) ← sort (sortedCoins_compare sortBy) copy1 h1;
  '(copy2, h3) ← spread coins h2;
  '(movers, h4) ← sort topMovers_compare copy2 h3;
  '(top, h5) ← slice 5 movers h4;
  cs ← h5 !! coins;
  Some {| sortedCoins := sorted; topMovers := top;
          shown_count := length cs; heap_after := h5 |}.

End comparators.
End Dashboard.

(** ** The coin page and the card that links to it *)

Module CryptoCard.
Import JS.

(** [href={`/coin/${coin.symbol.toLowerCase()}`}] *)
Definition href (symbol : string) : string := "/coin/" ++ toLowerCase symbol.

End CryptoCard.

Module CoinDetail.
Import JS.

(** The segment that the route [/coin/[id]] binds to [id]: what follows
    [/coin/], when that is one non-empty segment. *)
Fixpoint has_slash (s : string) : bool :=
  match s with
  | EmptyString => false
  | String c s' => Ascii.eqb c "/" || has_slash s'
  end.

Definition route_id (path : string) : option string :=
  match path with
  | String "/" (String "c" (String "o" (String "i" (String "n"
      (String "/" seg))))) =>
      if String.eqb seg "" || has_slash seg then None else Some seg
  | _ => None
  end.

(** [params?.id?.toUpperCase()] *)
Definition coinId (id : option string) : option string := toUpperCase <$> id.

(** The [useState] cells that decide which requests go out. *)
Record state := State {
  days : N;
  activeTab : string;
  timeframe : string
}.

Definition init : state :=
  {| days := 365; activeTab := "overview"; timeframe := "1m" |}.

(** The setters of those cells. *)
Inductive action :=
  | SetDays (n : N)
  | SetActiveTab (tab : string)
  | SetTimeframe (tf : string).

Definition update (st : state) (a : action) : state :=
  match a with
  | SetDays n =>
      {| days := n; activeTab := activeTab st; timeframe := timeframe st |}
  | SetActiveTab tab =>
      {| days := days st; activeTab := tab; timeframe := timeframe st |}
  | SetTimeframe tf =>
      {| days := days st; activeTab := activeTab st; timeframe := tf |}
  end.

Definition is_SetTimeframe (a : action) : bool :=
  match a with
  | SetTimeframe _ => true
  | _ => false
  end.

(** [!coinId] *)
Definition no_coin (coinId : option string) : bool :=
  match coinId with
  | None => true
  | Some id => negb (truthy (JStr id))
  end.

(** The four effects; each gives the URLs it fetches. *)
Definition history_requests (API_URL : string) (coinId : option string)
    (st : state) : list string :=
  match coinId with
  | Some id =>
      if no_coin coinId then []
      else [ API_URL ++ "/coins/" ++ id;
             API_URL ++ "/coins/" ++ id ++ "/history?days=" ++ pretty (days st) ]
  | None => []
  end.

Definition technical_requests (API_URL : string) (coinId : option string)
    (st : state) : list string :=
  match coinId with
  | Some id =>
      if no_coin coinId || negb (String.eqb (activeTab st) "technical") then []
      else [ API_URL ++ "/coins/" ++ id ++ "/technical?timeframe="
               ++ timeframe st ]
  | None => []
  end.

Definition prediction_requests (API_URL : string) (coinId : option string)
    (st : state) : list string :=
  match coinId with
  | Some id =>
      if no_coin coinId || negb (String.eqb (activeTab st) "prediction") then []
      else [ API_URL ++ "/coins/" ++ id ++ "/predict?lookback=30&epochs=15" ]
  | None => []
  end.

Definition onchain_requests (API_URL : string) (coinId : option string)
    (st : state) : list string :=
  match coinId with
  | Some id =>
      if no_coin coinId || negb (String.eqb (activeTab st) "onchain") then []
      else [ API_URL ++ "/coins/" ++ id ++ "/onchain-sentiment" ]
  | None => []
  end.

(** Every URL the page fetches in a given state. *)
Definition requests (API_URL : string) (coinId : option string) (st : state)
  : list string :=
  history_requests API_URL coinId st ++ technical_requests API_URL coinId st
  ++ prediction_requests API_URL coinId st ++ onchain_requests API_URL coinId st.

End CoinDetail.

(** ** The chart components *)

Module Charts.
Import JS.

(** A bar of the history as [CandlestickChart] reads it. *)
Record bar := Bar {
  date : string;
  open : Q;
  close : Q;
  high : Q;
  low : Q
}.

(** An element of [candleData]. *)
Record candle := Candle {
  c_date : string;
  c_open : Q;
  c_close : Q;
  c_high : Q;
  c_low : Q;
  c_fill : string;
  candleHigh : Q;
  candleLow : Q
}.

(** What a component returns. *)
Inductive element :=
  | Placeholder (text : string)
  | LineChart (data : list (option (gmap string jsval))) (stroke : string)
  | ComposedChart (candleData : list candle).

(** A property read [data[index].field] made by the component itself. *)
Record read := Read { index : nat; field : string }.

(** A render: the reads it made, then a [TypeError] or the element. *)
Definition render (A : Type) : Type := list read * (string + A).

Definition ret {A} (a : A) : render A := ([], inr a).

Definition bind {A B} (m : render A) (k : A → render B) : render B :=
  match m with
  | (t, inl e) => (t, inl e)
  | (t, inr a) => let '(t', r) := k a in ((t ++ t')%list, r)
  end.

(** [d.field] on element [i] of the array; [d] may be [null]. *)
Definition get {A B} (i : nat) (d : option A) (f : string) (proj : A → B)
  : render B :=
  match d with
  | Some a => ([{| index := i; field := f |}], inr (proj a))
  | None => ([], inl ("Cannot read properties of null (reading '" ++ f ++ "')"))
  end.

(** [Sparkline({ data, color })]; the default [color] is filled in by
    [None]. The chart library, not the component, reads the points. *)
Definition Sparkline (data : option (list (option (gmap string jsval))))
    (color : option string) : render element :=
  let color := default "#3b82f6" color in
  match data with
  | None => ret (Placeholder "No data")
  | Some d =>
      if Nat.eqb (length d) 0 then ret (Placeholder "No data")
      else ret (LineChart d color)
  end.

(** The callback of [data.map] in [CandlestickChart]. *)
Definition candle_of (i : nat) (d : option bar) : render candle :=
  bind (get i d "date" date) (λ v_date,
  bind (get i d "open" open) (λ v_open,
  bind (get i d "close" close) (λ v_close,
  bind (get i d "high" high) (λ v_high,
  bind (get i d "low" low) (λ v_low,
  bind (get i d "close" close) (λ c1,
  bind (get i d "open" open) (λ o1,
  bind (get i d "open" open) (λ o2,
  bind (get i d "close" close) (λ c2,
  bind (get i d "open" open) (λ o3,
  bind (get i d "close" close) (λ c3,
  ret {| c_date := v_date; c_open := v_open; c_close := v_close;
         c_high := v_high; c_low := v_low;
         c_fill := if Qle_bool o1 c1 then "#4ade80" else "#f87171";
         candleHigh := Qmax o2 c2;
         candleLow := Qmin o3 c3 |}))))))))))).

Fixpoint map_from (i : nat) (data : list (option bar)) : render (list candle) :=
  match data with
  | [] => ret []
  | d :: rest =>
      bind (candle_of i d) (λ c,
      bind (map_from (S i) rest) (λ cs, ret (c :: cs)))
  end.

(** [CandlestickChart({ data })] *)
Definition CandlestickChart (data : option (list (option bar)))
  : render element :=
  match data with
  | None => ret (Placeholder "No data available")
  | Some d =>
      if Nat.eqb (length d) 0 then ret (Placeholder "No data available")
      else bind (map_from 0 d) (λ candleData, ret (ComposedChart candleData))
  end.

End Charts.

(** ** Sample inputs *)

Module Samples.
Import JS.

(** Symbol [A] has bars on days 1, 2, 3 and symbol [B] on days 2, 3, 4. *)
Definition series_A : Compare.coin_series :=
  Compare.CoinSeries "A"
    [ Compare.Bar "2024-01-01" (JNum 10);
      Compare.Bar "2024-01-02" (JNum 12);
      Compare.Bar "2024-01-03" (JNum 11) ].

Definition series_B : Compare.coin_series :=
  Compare.CoinSeries "B"
    [ Compare.Bar "2024-01-02" (JNum 20);
      Compare.Bar "2024-01-03" (JNum 21);
      Compare.Bar "2024-01-04" (JNum 22) ].

(** A page with [A] and [B] selected and nothing compared yet. *)
Definition page_AB : Compare.state :=
  {| Compare.st_coin1 := "A"; Compare.st_coin2 := "B";
     Compare.st_data := None;
     Compare.st_coin1Details := None; Compare.st_coin2Details := None;
     Compare.st_loading := false; Compare.st_days := 365 |}.

Definition response_AB : Compare.compare_result :=
  Compare.CompareResult (Some series_A) (Some series_B).

Definition details_A : Compare.details := Some {[ "symbol" := JStr "A" ]}.
Definition details_B : Compare.details := Some {[ "symbol" := JStr "B" ]}.

(** The run in which the three responses arrive (details first) and the
    handler then goes on. *)
Definition run_0 : Compare.run :=
  Compare.start (Compare.setLoading true page_AB)
    (Compare.Fetch <$> Compare.request_urls "http://localhost:8000" page_AB).

Definition run_1 : Compare.run :=
  {| Compare.p_compare := Compare.Pending;
     Compare.p_details1 := Compare.Settled (Compare.Fulfilled details_A);
     Compare.p_details2 := Compare.Pending;
     Compare.first_rejection := None; Compare.resumed := false;
     Compare.page := Compare.page run_0;
     Compare.effects := Compare.effects run_0 |}.

Definition run_2 : Compare.run :=
  {| Compare.p_compare := Compare.Pending;
     Compare.p_details1 := Compare.Settled (Compare.Fulfilled details_A);
     Compare.p_details2 := Compare.Settled (Compare.Fulfilled details_B);
     Compare.first_rejection := None; Compare.resumed := false;
     Compare.page := Compare.page run_0;
     Compare.effects := Compare.effects run_0 |}.

Definition run_3 : Compare.run :=
  {| Compare.p_compare := Compare.Settled (Compare.Fulfilled response_AB);
     Compare.p_details1 := Compare.Settled (Compare.Fulfilled details_A);
     Compare.p_details2 := Compare.Settled (Compare.Fulfilled details_B);
     Compare.first_rejection := None; Compare.resumed := false;
     Compare.page := Compare.page run_0;
     Compare.effects := Compare.effects run_0 |}.

Definition run_4 : Compare.run :=
  {| Compare.p_compare := Compare.Settled (Compare.Fulfilled response_AB);
     Compare.p_details1 := Compare.Settled (Compare.Fulfilled details_A);
     Compare.p_details2 := Compare.Settled (Compare.Fulfilled details_B);
     Compare.first_rejection := None; Compare.resumed := true;
     Compare.page :=
       Compare.setLoading false
         (Compare.setResult (Compare.data_of series_A series_B)
            details_A details_B (Compare.page run_0));
     Compare.effects := Compare.effects run_0 |}.

(** A listing of two coins, held by the [coins] cell at address 1. *)
Definition coin_A : Dashboard.coin :=
  Dashboard.Coin "A" (Some 10%Q) (Some (-3)%Q) (Some 100%Q) None.
Definition coin_B : Dashboard.coin :=
  Dashboard.Coin "B" (Some 20%Q) (Some 1%Q) None (Some 2%Q).

Definition heap_AB : gmap positive (list Dashboard.coin) :=
  {[ 1%positive := [coin_B; coin_A] ]}.

End Samples.


(** ** Runs of the comparison handler *)

Module CompareRun.
Import JS Compare.

(** The three cells a comparison writes. *)
Definition shown (st : state)
  : option compare_data * details * details :=
  (st_data st, st_coin1Details st, st_coin2Details st).

Definition is_rejected {A} (p : promise A) : Prop :=
  ∃ msg, p = Settled (Rejected msg).

Definition is_fulfilled {A} (p : promise A) : Prop :=
  ∃ a, p = Settled (Fulfilled a).

Definition all_fulfilled (r : run) : Prop :=
  is_fulfilled (p_compare r) ∧ is_fulfilled (p_details1 r) ∧
  is_fulfilled (p_details2 r).


End CompareRun.

(** ** The pages as a whole: what they show after their fetches *)

Module DashboardPage.
Import JS Dashboard.

(** The quantity a numeric sort key orders by; [x || 0] makes a missing
    value count as 0. *)
Definition sort_key (sortBy : string) (c : coin) : Q :=
  if String.eqb sortBy "price" then or0 (currentPrice c)
  else if String.eqb sortBy "change" then or0 (priceChange24h c)
  else if String.eqb sortBy "volume" then or0 (volume24h c)
  else if String.eqb sortBy "volatility" then or0 (volatility c)
  else 0%Q.

Definition numeric_key (sortBy : string) : bool :=
  String.eqb sortBy "price" || String.eqb sortBy "change"
  || String.eqb sortBy "volume" || String.eqb sortBy "volatility".

Definition known_key (sortBy : string) : bool :=
  String.eqb sortBy "symbol" || numeric_key sortBy.

(** Largest first. *)
Definition desc_by (f : coin → Q) (a b : coin) : Prop := (f b <= f a)%Q.

(** The size of a coin's move: [Math.abs(c.priceChange24h || 0)]. *)
Definition move (c : coin) : Q := Qabs (or0 (priceChange24h c)).

(** The [useState] cells of [Dashboard]; [error] is [null] or a message. *)
Record state := State {
  coins : list coin;
  loading : bool;
  error : option string;
  sortBy : string
}.

Definition init : state :=
  {| coins := []; loading := true; error := None; sortBy := "symbol" |}.

(** The chain on [fetch(.../coins?limit=100)]: the body is an array of
    coins ([Some]) or some other JSON value ([None]); a rejection lands in
    [catch]. *)
Definition on_settle (o : Compare.outcome (option (list coin))) (st : state)
  : state :=
  match o with
  | Compare.Fulfilled body =>
      {| coins := match body with Some l => l | None => [] end;
         loading := false; error := error st; sortBy := sortBy st |}
  | Compare.Rejected msg =>
      {| coins := coins st; loading := false; error := Some msg;
         sortBy := sortBy st |}
  end.

(** Which of the four screens [Dashboard] returns. The listing says
    whether the top-movers block is there, how many cards and which count. *)
Inductive screen :=
  | Loading
  | Error (msg : string)
  | NoData
  | Listing (movers : list coin) (cards : list coin) (count : nat).

Section view.
Context (localeCompare : string → string → Q).

Definition view (st : state) : screen :=
  let sortedCoins :=
    Array_sort (sortedCoins_compare localeCompare (sortBy st)) (coins st) in
  let topMovers :=
    Array_slice0 5 (Array_sort topMovers_compare (coins st)) in
  let listing :=
    if Nat.eqb (length (coins st)) 0 then NoData
    else Listing topMovers sortedCoins (length (coins st)) in
  if loading st then Loading
  else match error st with
       | Some msg => if truthy (JStr msg) then Error msg else listing
       | None => listing
       end.

End view.
End DashboardPage.

Module CoinDetailPage.
Import JS.

(** [history.slice(-n)]: the last [n] elements. *)
Definition slice_last {A} (n : nat) (l : list A) : list A :=
  drop (length l - n) l.

(** [{history.length > 0 && <CandlestickChart data={history.slice(-60)} />}]:
    the chart is mounted only on a non-empty history. *)
Definition price_action (history : list (option Charts.bar))
  : option (Charts.render Charts.element) :=
  if Nat.ltb 0 (length history)
  then Some (Charts.CandlestickChart (Some (slice_last 60 history)))
  else None.

(** The body of [/coins/:id/history]: [null], or an object whose [data]
    may be missing. *)
Inductive history_body :=
  | BodyNull
  | BodyObject (data : option (list (option Charts.bar))).

(** The cells the first effect writes. *)
Record page := Page {
  details : option (gmap string jsval);
  history : list (option Charts.bar);
  loading : bool
}.

Definition init : page :=
  {| details := None; history := []; loading := true |}.

(** The chain on the [Promise.all] of the first effect. [then] sets the
    details first; [historyData.data] on a [null] body throws from there
    into [catch], which only clears [loading]. *)
Definition on_load
    (o : Compare.outcome (option (gmap string jsval) * history_body))
    (st : page) : page :=
  match o with
  | Compare.Rejected _ =>
      {| details := details st; history := history st; loading := false |}
  | Compare.Fulfilled (d, BodyNull) =>
      {| details := d; history := history st; loading := false |}
  | Compare.Fulfilled (d, BodyObject h) =>
      {| details := d;
         history := match h with Some l => l | None => [] end;
         loading := false |}
  end.

(** [historyData.data || []] on a body that is an object. *)
Definition bars_of (hb : history_body) : list (option Charts.bar) :=
  match hb with
  | BodyObject (Some l) => l
  | _ => []
  end.

(** A history body that brings no bar. *)
Definition no_bars (hb : history_body) : Prop :=
  hb = BodyNull ∨ hb = BodyObject None ∨ hb = BodyObject (Some []).

(** Which screen [CoinDetail] returns. *)
Inductive screen :=
  | Loading
  | NotFound
  | Detail (chart : option (Charts.render Charts.element)).

Definition view (st : page) : screen :=
  if loading st then Loading
  else match details st with
       | None => NotFound
       | Some _ => Detail (price_action (history st))
       end.

(** Letters and digits, in either case. *)
Definition alnum (s : string) : bool :=
  all_chars (λ c, is_upper c || is_lower c || is_digit c) s.

(** The analytics requests of a state: all but the two of the first
    effect. *)
Definition analytics_requests (API_URL : string) (coinId : option string)
    (st : CoinDetail.state) : list string :=
  CoinDetail.technical_requests API_URL coinId st
  ++ CoinDetail.prediction_requests API_URL coinId st
  ++ CoinDetail.onchain_requests API_URL coinId st.

End CoinDetailPage.

Module ChartsSpec.
Import JS Charts.

(** How a candle relates to the bar it was made from: the five fields
    are copied, the body spans open and close, and the colour follows
    [close >= open]. *)
Definition candle_for (b : bar) (c : candle) : Prop :=
  c_date c = date b ∧ c_open c = open b ∧ c_close c = close b ∧
  c_high c = high b ∧ c_low c = low b ∧
  (candleLow c <= open b)%Q ∧ (candleLow c <= close b)%Q ∧
  (open b <= candleHigh c)%Q ∧ (close b <= candleHigh c)%Q ∧
  (c_fill c = "#4ade80" ∨ c_fill c = "#f87171") ∧
  (c_fill c = "#4ade80" ↔ (open b <= close b)%Q).

(** The message of the [TypeError] on a [null] element of [data]. *)
Definition null_element_error : string :=
  "Cannot read properties of null (reading 'date')".

End ChartsSpec.

Module MoreSamples.
Import JS.


(** A series with two bars on one day. *)
Definition series_dup : Compare.coin_series :=
  Compare.CoinSeries "A"
    [ Compare.Bar "2024-01-01" (JNum 10);
      Compare.Bar "2024-01-01" (JNum 99);
      Compare.Bar "2024-01-02" (JNum 0) ].

(** The run in which the second details request fails first. *)
Definition failed_1 : Compare.run :=
  {| Compare.p_compare := Compare.Pending;
     Compare.p_details1 := Compare.Pending;
     Compare.p_details2 := Compare.Settled (Compare.Rejected "Failed to fetch");
     Compare.first_rejection := Some "Failed to fetch";
     Compare.resumed := false;
     Compare.page := Compare.page Samples.run_0;
     Compare.effects := Compare.effects Samples.run_0 |}.

Definition failed_2 : Compare.run :=
  {| Compare.p_compare := Compare.Pending;
     Compare.p_details1 := Compare.Pending;
     Compare.p_details2 := Compare.Settled (Compare.Rejected "Failed to fetch");
     Compare.first_rejection := Some "Failed to fetch";
     Compare.resumed := true;
     Compare.page := Compare.setLoading false (Compare.page Samples.run_0);
     Compare.effects :=
       Compare.effects Samples.run_0 ++ [Compare.Alert "Failed to fetch"] |}.

End MoreSamples.
(** ** Facts about the primitives *)

Section sort_facts.
Context {A : Type} (comparefn : A → A → Q).
Local Abbreviation cmp_le := (JS.cmp_le comparefn).

Lemma sort_insert_Permutation x l :
  JS.sort_insert comparefn x l ≡ₚ x :: l.
Proof.
  induction l as [|y l IH]; simpl; [done|].
  destruct (Qle_bool (comparefn x y) 0); [done|].
  rewrite IH. apply Permutation_swap.
Qed.

Lemma Array_sort_Permutation l : JS.Array_sort comparefn l ≡ₚ l.
Proof.
  induction l as [|x l IH]; simpl; [done|].
  by rewrite sort_insert_Permutation, IH.
Qed.

Lemma Array_sort_length l : length (JS.Array_sort comparefn l) = length l.
Proof. by rewrite Array_sort_Permutation. Qed.

(** With a total comparator the result is sorted. *)
Context (cmp_total : ∀ x y, cmp_le x y ∨ cmp_le y x).

Lemma sort_insert_HdRel a x l :
  cmp_le a x → HdRel cmp_le a l → HdRel cmp_le a (JS.sort_insert comparefn x l).
Proof.
  intros Hax Hal. destruct l as [|y l]; simpl; [by constructor|].
  destruct (Qle_bool (comparefn x y) 0); constructor; [done|].
  by inversion Hal.
Qed.

Lemma sort_insert_Sorted x l :
  Sorted cmp_le l → Sorted cmp_le (JS.sort_insert comparefn x l).
Proof.
  induction 1 as [|y l Hl IH Hhd]; simpl; [by repeat constructor|].
  destruct (Qle_bool (comparefn x y) 0) eqn:Hxy.
  - constructor; [by constructor|]. by constructor.
  - constructor; [done|]. apply sort_insert_HdRel; [|done].
    destruct (cmp_total x y) as [H|H]; [|done].
    unfold JS.cmp_le in H. congruence.
Qed.

Lemma Array_sort_Sorted l : Sorted cmp_le (JS.Array_sort comparefn l).
Proof.
  induction l as [|x l IH]; simpl; [constructor|].
  by apply sort_insert_Sorted.
Qed.
End sort_facts.

(** The order of strings that the default comparator sorts by. *)

Lemma ascii_compare_trans c a b d :
  Ascii.compare a b = c → Ascii.compare b d = c → Ascii.compare a d = c.
Proof.
  unfold Ascii.compare. intros <-.
  destruct (N.compare_spec (N_of_ascii a) (N_of_ascii b)) as [E|L|G]; intros H.
  - by rewrite E.
  - rewrite N.compare_lt_iff in H |- *. lia.
  - rewrite N.compare_gt_iff in H |- *. lia.
Qed.

Lemma str_compare_trans c a : ∀ b d,
  String.compare a b = c → String.compare b d = c → String.compare a d = c.
Proof.
  induction a as [|x a IH]; intros [|y b] [|z d]; simpl; try congruence.
  intros H1 H2. destruct (Ascii.compare x y) eqn:Hxy.
  - apply Ascii.compare_eq_iff in Hxy as ->.
    destruct (Ascii.compare y z); eauto; congruence.
  - subst c. destruct (Ascii.compare y z) eqn:Hyz; try congruence.
    + apply Ascii.compare_eq_iff in Hyz as <-. by rewrite Hxy.
    + by rewrite (ascii_compare_trans Lt x y z).
  - subst c. destruct (Ascii.compare y z) eqn:Hyz; try congruence.
    + apply Ascii.compare_eq_iff in Hyz as <-. by rewrite Hxy.
    + by rewrite (ascii_compare_trans Gt x y z).
Qed.

Lemma str_compare_refl a : String.compare a a = Eq.
Proof.
  induction a as [|x a IH]; simpl; [done|].
  unfold Ascii.compare. by rewrite N.compare_refl.
Qed.

Global Instance str_lt_trans : Transitive JS.str_lt.
Proof. intros a b d. apply str_compare_trans. Qed.

Global Instance str_lt_irrefl : Irreflexive JS.str_lt.
Proof. intros a. unfold complement, JS.str_lt. by rewrite str_compare_refl. Qed.

Global Instance str_le_trans : Transitive JS.str_le.
Proof.
  intros a b d. unfold JS.str_le. intros Hab Hbd.
  destruct (String.compare a b) eqn:E1; [| |done].
  - apply String.compare_eq_iff in E1 as ->. done.
  - destruct (String.compare b d) eqn:E2; [| |done].
    + apply String.compare_eq_iff in E2 as <-. by rewrite E1.
    + by rewrite (str_compare_trans Lt a b d).
Qed.

Global Instance str_le_antisymm : AntiSymm (=) JS.str_le.
Proof.
  intros a b. unfold JS.str_le. rewrite (String.compare_antisym b a).
  destruct (String.compare a b) eqn:E; simpl; try done.
  intros _ _. by apply String.compare_eq_iff.
Qed.

Lemma cmp_le_default a b : JS.cmp_le JS.default_compare a b ↔ JS.str_le a b.
Proof.
  unfold JS.cmp_le, JS.default_compare, JS.str_le.
  destruct (String.compare a b); simpl; split; done.
Qed.

Lemma default_compare_total a b :
  JS.cmp_le JS.default_compare a b ∨ JS.cmp_le JS.default_compare b a.
Proof.
  rewrite !cmp_le_default. unfold JS.str_le.
  rewrite (String.compare_antisym b a).
  destruct (String.compare a b); simpl; auto.
Qed.

Lemma Sorted_impl {A} (R1 R2 : relation A) l :
  (∀ x y, R1 x y → R2 x y) → Sorted R1 l → Sorted R2 l.
Proof.
  intros HR. induction 1 as [|x l Hl IH Hhd]; constructor; [done|].
  destruct Hhd; constructor; auto.
Qed.

Lemma default_sort_Sorted l :
  Sorted JS.str_le (JS.Array_sort JS.default_compare l).
Proof.
  eapply Sorted_impl; [|apply (Array_sort_Sorted _ default_compare_total)].
  intros a b. apply cmp_le_default.
Qed.

(** A list sorted by [str_le] without repetitions is strictly ascending. *)
Lemma str_le_neq_lt a b : JS.str_le a b → a ≠ b → JS.str_lt a b.
Proof.
  unfold JS.str_le, JS.str_lt. intros Hle Hne.
  destruct (String.compare a b) eqn:E; [|done|done].
  by apply String.compare_eq_iff in E.
Qed.

Lemma StronglySorted_strict l :
  StronglySorted JS.str_le l → NoDup l → StronglySorted JS.str_lt l.
Proof.
  induction 1 as [|x l Hl IH Hall]; intros Hnd; constructor.
  - apply IH. by apply NoDup_cons_1_2 in Hnd.
  - apply NoDup_cons in Hnd as [Hx _].
    rewrite Forall_forall in Hall |- *. intros y Hy.
    apply str_le_neq_lt; [by apply Hall|]. intros ->. done.
Qed.

Lemma default_sort_strict l :
  NoDup l → StronglySorted JS.str_lt (JS.Array_sort JS.default_compare l).
Proof.
  intros Hnd. apply StronglySorted_strict.
  - apply Sorted_StronglySorted; [apply _|apply default_sort_Sorted].
  - by rewrite Array_sort_Permutation.
Qed.

(** Sorting with the default comparator forgets the order of the input. *)
Lemma default_sort_Permutation_eq l1 l2 :
  l1 ≡ₚ l2 →
  JS.Array_sort JS.default_compare l1 = JS.Array_sort JS.default_compare l2.
Proof.
  intros Hp. apply (Sorted_unique JS.str_le); try apply default_sort_Sorted.
  by rewrite !Array_sort_Permutation.
Qed.


(** On dates written as [YYYY-MM-DD], the order of the default comparator
    is the order of the calendar. *)
Section iso_dates.
Import IsoDate.

Lemma compare_digit i j :
  i < 10 → j < 10 → Ascii.compare (digit i) (digit j) = Nat.compare i j.
Proof.
  intros Hi Hj.
  do 10 (destruct i as [|i]; [do 10 (destruct j as [|j]; [reflexivity|]); lia|]).
  lia.
Qed.

Lemma divmod10 a :
  a < 100 → a = 10 * (a / 10) + a mod 10 ∧ a / 10 < 10 ∧ a mod 10 < 10.
Proof.
  intros Ha. pose proof (Nat.div_mod_eq a 10) as E.
  pose proof (Nat.mod_upper_bound a 10) as M. lia.
Qed.

Lemma divmod100 y :
  y < 100 * 100 →
  y = 100 * (y / 100) + y mod 100 ∧ y / 100 < 100 ∧ y mod 100 < 100.
Proof.
  intros Hy. pose proof (Nat.div_mod_eq y 100) as E.
  pose proof (Nat.mod_upper_bound y 100) as M. lia.
Qed.

Lemma compare_two a b s t :
  a < 100 → b < 100 →
  String.compare (two a s) (two b t)
  = match Nat.compare a b with
    | Eq => String.compare s t
    | c => c
    end.
Proof.
  intros Ha Hb. unfold two. cbn [String.compare].
  destruct (divmod10 a Ha) as (Ea & Qa & Ra), (divmod10 b Hb) as (Eb & Qb & Rb).
  rewrite !compare_digit by done.
  destruct (Nat.compare_spec (a / 10) (b / 10)) as [Eq|Lq|Gq];
    destruct (Nat.compare_spec (a mod 10) (b mod 10)) as [Er|Lr|Gr];
    destruct (Nat.compare_spec a b) as [E|L|G]; try reflexivity; lia.
Qed.

Lemma compare_dash s t :
  String.compare (String "-" s) (String "-" t) = String.compare s t.
Proof. reflexivity. Qed.

Lemma compare_print (a b : day) :
  wf a → wf b →
  String.compare (print a) (print b)
  = match Nat.compare (year a) (year b) with
    | Eq => match Nat.compare (month a) (month b) with
            | Eq => Nat.compare (mday a) (mday b)
            | c => c
            end
    | c => c
    end.
Proof.
  intros (Ya & Ma & Da) (Yb & Mb & Db). unfold print.
  destruct (divmod100 _ Ya) as (Ea & Qa & Ra),
           (divmod100 _ Yb) as (Eb & Qb & Rb).
  rewrite compare_two by done.
  destruct (Nat.compare_spec (year a / 100) (year b / 100)) as [Eq|Lq|Gq].
  - rewrite compare_two by done.
    destruct (Nat.compare_spec (year a mod 100) (year b mod 100)) as [Er|Lr|Gr];
      destruct (Nat.compare_spec (year a) (year b)) as [E|L|G]; try lia;
      try reflexivity.
    rewrite compare_dash, compare_two by done.
    destruct (Nat.compare (month a) (month b)); try reflexivity.
    rewrite compare_dash, compare_two by done.
    by destruct (Nat.compare (mday a) (mday b)).
  - destruct (Nat.compare_spec (year a) (year b)); try lia; reflexivity.
  - destruct (Nat.compare_spec (year a) (year b)); try lia; reflexivity.
Qed.

Lemma iso_date_order (a b : day) :
  wf a → wf b → (JS.str_lt (print a) (print b) ↔ before a b).
Proof.
  intros Ha Hb. unfold JS.str_lt, before. rewrite compare_print by done.
  destruct (Nat.compare_spec (year a) (year b));
    destruct (Nat.compare_spec (month a) (month b));
    destruct (Nat.compare_spec (mday a) (mday b));
    split; (done || lia).
Qed.

Lemma iso_dates_sorted (days : list day) :
  Forall wf days →
  StronglySorted JS.str_lt (print <$> days) → StronglySorted before days.
Proof.
  induction days as [|a days IH]; intros Hwf Hs; [constructor|].
  apply Forall_cons in Hwf as [Ha Hwf].
  rewrite fmap_cons in Hs. apply StronglySorted_inv in Hs as [Hs Hall].
  constructor; [by apply IH|].
  rewrite Forall_fmap in Hall. rewrite Forall_forall in Hall, Hwf |- *.
  intros b Hb. apply iso_date_order; [done|by apply Hwf|by apply Hall].
Qed.

Example iso_january :
  JS.str_lt (print (Day 2024 1 9)) (print (Day 2024 1 10)).
Proof. reflexivity. Qed.

End iso_dates.
Section merge_facts.
Import JS Compare.

Lemma Set_add_elem x y s : x ∈ Set_add y s ↔ x ∈ s ∨ x = y.
Proof.
  unfold Set_add. case_decide as Hy.
  - split; [auto|]. intros [?| ->]; done.
  - rewrite elem_of_app, list_elem_of_singleton. done.
Qed.

Lemma Set_add_NoDup y s : NoDup s → NoDup (Set_add y s).
Proof.
  intros Hs. unfold Set_add. case_decide as Hy; [done|].
  apply NoDup_app. split_and!; [done| |apply NoDup_singleton].
  intros x Hx ->%list_elem_of_singleton. done.
Qed.

Lemma add_dates_elem x d : ∀ s,
  x ∈ add_dates d s ↔ x ∈ s ∨ x ∈ date <$> d.
Proof.
  unfold add_dates. induction d as [|b d IH]; intros s; simpl.
  - rewrite elem_of_nil. tauto.
  - rewrite IH, Set_add_elem, elem_of_cons. intuition.
Qed.

Lemma add_dates_NoDup d : ∀ s, NoDup s → NoDup (add_dates d s).
Proof.
  unfold add_dates. induction d as [|b d IH]; intros s Hs; simpl; [done|].
  by apply IH, Set_add_NoDup.
Qed.

Lemma all_dates_elem x c1 c2 :
  x ∈ all_dates c1 c2 ↔ x ∈ date <$> data c1 ∨ x ∈ date <$> data c2.
Proof.
  unfold all_dates. rewrite !add_dates_elem, elem_of_nil. tauto.
Qed.

Lemma all_dates_NoDup c1 c2 : NoDup (all_dates c1 c2).
Proof. apply add_dates_NoDup, add_dates_NoDup, NoDup_nil_2. Qed.

Lemma all_dates_swap c1 c2 : all_dates c1 c2 ≡ₚ all_dates c2 c1.
Proof.
  apply NoDup_Permutation; try apply all_dates_NoDup.
  intros x. rewrite !all_dates_elem. tauto.
Qed.

(** [find] on the date: what it returns and when it returns nothing. *)
Lemma find_date_None dt (d : list bar) :
  dt ∉ date <$> d → Array_find (λ b, String.eqb (date b) dt) d = None.
Proof.
  unfold Array_find. induction d as [|b d IH]; simpl; [done|].
  rewrite not_elem_of_cons. intros [Hne Hd].
  destruct (String.eqb_spec (date b) dt) as [E|_]; [done|auto].
Qed.

Lemma find_date_Some dt (d : list bar) b :
  NoDup (date <$> d) → b ∈ d → date b = dt →
  Array_find (λ b, String.eqb (date b) dt) d = Some b.
Proof.
  unfold Array_find. induction d as [|b' d IH]; simpl.
  - intros _ Hb. by apply elem_of_nil in Hb.
  - rewrite NoDup_cons, elem_of_cons. intros [Hb' Hd] [->|Hb] Hdt.
    + rewrite <- Hdt, String.eqb_refl. done.
    + destruct (String.eqb_spec (date b') dt) as [E|_]; [|auto].
      exfalso. apply Hb'. rewrite E, <- Hdt. by apply list_elem_of_fmap_2.
Qed.

(** Reading an entry back. *)
Lemma entry_lookup_date dt s1 v1 s2 v2 :
  s1 ≠ "date" → s2 ≠ "date" → entry dt s1 v1 s2 v2 !! "date" = Some (JStr dt).
Proof. intros. unfold entry. by simplify_map_eq. Qed.

Lemma entry_lookup_1 dt s1 v1 s2 v2 :
  s1 ≠ s2 → entry dt s1 v1 s2 v2 !! s1 = Some v1.
Proof. intros. unfold entry. by simplify_map_eq. Qed.

Lemma entry_lookup_2 dt s1 v1 s2 v2 : entry dt s1 v1 s2 v2 !! s2 = Some v2.
Proof. unfold entry. by simplify_map_eq. Qed.

Lemma entry_swap dt s1 v1 s2 v2 :
  s1 ≠ s2 → entry dt s1 v1 s2 v2 = entry dt s2 v2 s1 v1.
Proof. intros. unfold entry. by apply insert_insert_ne. Qed.

Lemma merged_entry_date c1 c2 :
  symbol c1 ≠ "date" → symbol c2 ≠ "date" →
  entry_date <$> merged c1 c2
  = Some <$> Array_sort default_compare (all_dates c1 c2).
Proof.
  intros H1 H2. unfold merged. rewrite <- list_fmap_compose.
  apply list_fmap_ext. intros i dt _. simpl. unfold entry_date.
  by rewrite entry_lookup_date.
Qed.

End merge_facts.

(** ** The comparison merge *)

Section merge_claims.
Import JS Compare.

Lemma elem_of_merged e c1 c2 :
  e ∈ merged c1 c2 →
  ∃ dt, (dt ∈ date <$> data c1 ∨ dt ∈ date <$> data c2) ∧
    e = entry dt
          (symbol c1)
          (or (close_of (Array_find (λ d, String.eqb (date d) dt) (data c1)))
              JNull)
          (symbol c2)
          (or (close_of (Array_find (λ d, String.eqb (date d) dt) (data c2)))
              JNull).
Proof.
  unfold merged. intros (dt & -> & Hdt)%list_elem_of_fmap.
  exists dt. split; [|done].
  rewrite Array_sort_Permutation in Hdt. by apply all_dates_elem.
Qed.

Lemma entry_date_entry dt s1 v1 s2 v2 :
  s1 ≠ "date" → s2 ≠ "date" → entry_date (entry dt s1 v1 s2 v2) = Some dt.
Proof. intros. unfold entry_date. by rewrite entry_lookup_date. Qed.

Lemma or_positive q : (0 < q)%Q → or (JNum q) JNull = JNum q.
Proof.
  intros Hq. unfold or. simpl.
  destruct (Qeq_bool q 0) eqn:E; [|done].
  apply Qeq_bool_eq in E. rewrite E in Hq. by apply Qlt_irrefl in Hq.
Qed.

(** C1. The merge built in [handleCompare] has one entry per date of the
    union of the two series' dates, and where a symbol has no bar on a
    date, the entry holds [null] under that symbol. *)
Theorem merged_covers_date_union (c1 c2 : coin_series) :
  symbol c1 ≠ "date" → symbol c2 ≠ "date" → symbol c1 ≠ symbol c2 →
  (∃ ds : list string,
      entry_date <$> merged c1 c2 = Some <$> ds ∧ NoDup ds ∧
      ∀ d, d ∈ ds ↔ d ∈ date <$> data c1 ∨ d ∈ date <$> data c2) ∧
  (∀ e d, e ∈ merged c1 c2 → entry_date e = Some d →
      (d ∉ date <$> data c1 → e !! symbol c1 = Some JNull) ∧
      (d ∉ date <$> data c2 → e !! symbol c2 = Some JNull)).
Proof.
  intros H1 H2 H12. split.
  - exists (Array_sort default_compare (all_dates c1 c2)). split_and!.
    + by apply merged_entry_date.
    + rewrite Array_sort_Permutation. apply all_dates_NoDup.
    + intros d. rewrite Array_sort_Permutation. apply all_dates_elem.
  - intros e d (dt & _ & ->)%elem_of_merged.
    rewrite entry_date_entry by done. intros [= ->]. split; intros Hd.
    + rewrite entry_lookup_1 by done. by rewrite find_date_None.
    + rewrite entry_lookup_2. by rewrite find_date_None.
Qed.

Lemma merged_covers_date_union_witness :
  (∃ ds : list string,
      entry_date <$> merged Samples.series_A Samples.series_B = Some <$> ds ∧
      NoDup ds ∧
      ∀ d, d ∈ ds ↔ d ∈ date <$> data Samples.series_A
                  ∨ d ∈ date <$> data Samples.series_B) ∧
  (∀ e d, e ∈ merged Samples.series_A Samples.series_B →
      entry_date e = Some d →
      (d ∉ date <$> data Samples.series_A → e !! "A" = Some JNull) ∧
      (d ∉ date <$> data Samples.series_B → e !! "B" = Some JNull)).
Proof.
  apply (merged_covers_date_union Samples.series_A Samples.series_B);
    discriminate.
Defined.

(** The scenario of the specification, evaluated: the dates are those of
    days 1 to 4, [A] is absent on day 4 and [B] on day 1. *)
Example merged_A_B :
  merged Samples.series_A Samples.series_B =
  [ entry "2024-01-01" "A" (JNum 10) "B" JNull;
    entry "2024-01-02" "A" (JNum 12) "B" (JNum 20);
    entry "2024-01-03" "A" (JNum 11) "B" (JNum 21);
    entry "2024-01-04" "A" JNull "B" (JNum 22) ].
Proof.
  unfold merged.
  replace (Array_sort default_compare
             (all_dates Samples.series_A Samples.series_B))
    with ["2024-01-01"; "2024-01-02"; "2024-01-03"; "2024-01-04"]
    by (vm_compute; reflexivity).
  reflexivity.
Qed.

(** C2. Where a symbol has a bar on the date of a merged entry and the
    bar's close is a positive number, the entry holds exactly that close
    under the symbol. *)
Theorem merged_keeps_close (c1 c2 : coin_series) (e : gmap string jsval) :
  symbol c1 ≠ "date" → symbol c2 ≠ "date" → symbol c1 ≠ symbol c2 →
  NoDup (date <$> data c1) → NoDup (date <$> data c2) →
  e ∈ merged c1 c2 →
  (∀ b q, b ∈ data c1 → entry_date e = Some (date b) →
      close b = JNum q → (0 < q)%Q → e !! symbol c1 = Some (JNum q)) ∧
  (∀ b q, b ∈ data c2 → entry_date e = Some (date b) →
      close b = JNum q → (0 < q)%Q → e !! symbol c2 = Some (JNum q)).
Proof.
  intros H1 H2 H12 Hn1 Hn2 (dt & _ & ->)%elem_of_merged.
  rewrite entry_date_entry by done. split; intros b q Hb [= ->] Hc Hq.
  - rewrite entry_lookup_1 by done.
    rewrite (find_date_Some _ _ b) by done. simpl.
    by rewrite Hc, or_positive.
  - rewrite entry_lookup_2.
    rewrite (find_date_Some _ _ b) by done. simpl.
    by rewrite Hc, or_positive.
Qed.

Lemma merged_keeps_close_witness :
  (∀ b q, b ∈ data Samples.series_A →
      entry_date (entry "2024-01-02" "A" (JNum 12) "B" (JNum 20))
        = Some (date b) →
      close b = JNum q → (0 < q)%Q →
      entry "2024-01-02" "A" (JNum 12) "B" (JNum 20) !! "A" = Some (JNum q)) ∧
  (∀ b q, b ∈ data Samples.series_B →
      entry_date (entry "2024-01-02" "A" (JNum 12) "B" (JNum 20))
        = Some (date b) →
      close b = JNum q → (0 < q)%Q →
      entry "2024-01-02" "A" (JNum 12) "B" (JNum 20) !! "B" = Some (JNum q)).
Proof.
  apply (merged_keeps_close Samples.series_A Samples.series_B);
    try discriminate.
  - apply (bool_decide_unpack _). vm_compute. exact I.
  - apply (bool_decide_unpack _). vm_compute. exact I.
  - apply list_elem_of_fmap. exists "2024-01-02". split; [reflexivity|].
    apply list_elem_of_further, list_elem_of_here.
Defined.

(** C3. Merging in the other input order gives the same entries (same
    dates, same value under each symbol); only the labels [coin1] and
    [coin2] of the result change places. *)
Theorem merged_symmetric (c1 c2 : coin_series) :
  symbol c1 ≠ symbol c2 →
  cd_data (data_of c1 c2) = cd_data (data_of c2 c1) ∧
  cd_coin1 (data_of c1 c2) = cd_coin2 (data_of c2 c1) ∧
  cd_coin2 (data_of c1 c2) = cd_coin1 (data_of c2 c1).
Proof.
  intros H12. split; [|done]. simpl. unfold merged.
  rewrite (default_sort_Permutation_eq _ _ (all_dates_swap c1 c2)).
  apply list_fmap_ext. intros i dt _. by apply entry_swap.
Qed.

Lemma merged_symmetric_witness :
  cd_data (data_of Samples.series_A Samples.series_B)
    = cd_data (data_of Samples.series_B Samples.series_A) ∧
  cd_coin1 (data_of Samples.series_A Samples.series_B)
    = cd_coin2 (data_of Samples.series_B Samples.series_A) ∧
  cd_coin2 (data_of Samples.series_A Samples.series_B)
    = cd_coin1 (data_of Samples.series_B Samples.series_A).
Proof.
  apply (merged_symmetric Samples.series_A Samples.series_B). discriminate.
Defined.

(** C4. The dates of the merged series are strictly ascending in the
    order [sort] uses, so no date occurs twice, and they are the dates of
    the union; when the dates are calendar days written [YYYY-MM-DD], this
    is the order of the calendar. *)
Theorem merged_sorted_nodup (c1 c2 : coin_series) :
  symbol c1 ≠ "date" → symbol c2 ≠ "date" →
  ∃ ds : list string,
    entry_date <$> merged c1 c2 = Some <$> ds ∧
    StronglySorted str_lt ds ∧ NoDup ds ∧
    (∀ d, d ∈ ds ↔ d ∈ date <$> data c1 ∨ d ∈ date <$> data c2) ∧
    (∀ days, Forall IsoDate.wf days → ds = IsoDate.print <$> days →
             StronglySorted IsoDate.before days).
Proof.
  intros H1 H2.
  exists (Array_sort default_compare (all_dates c1 c2)).
  assert (StronglySorted str_lt (Array_sort default_compare (all_dates c1 c2)))
    as Hs by apply default_sort_strict, all_dates_NoDup.
  split_and!.
  - by apply merged_entry_date.
  - done.
  - rewrite Array_sort_Permutation. apply all_dates_NoDup.
  - intros d. rewrite Array_sort_Permutation. apply all_dates_elem.
  - intros days Hwf E. rewrite E in Hs. by apply iso_dates_sorted.
Qed.

Lemma merged_sorted_nodup_witness :
  ∃ ds : list string,
    entry_date <$> merged Samples.series_A Samples.series_B = Some <$> ds ∧
    StronglySorted str_lt ds ∧ NoDup ds ∧
    (∀ d, d ∈ ds ↔ d ∈ date <$> data Samples.series_A
                 ∨ d ∈ date <$> data Samples.series_B) ∧
    (∀ days, Forall IsoDate.wf days → ds = IsoDate.print <$> days →
             StronglySorted IsoDate.before days).
Proof.
  apply (merged_sorted_nodup Samples.series_A Samples.series_B); discriminate.
Defined.

End merge_claims.

(** ** The handler: guards and the join on [Promise.all] *)

Section handler_claims.
Import JS Compare.

Lemma truthy_JStr s : truthy (JStr s) = true ↔ s ≠ "".
Proof.
  simpl. destruct (String.eqb_spec s ""); simpl; split; congruence.
Qed.

Lemma st_data_setLoading b st : st_data (setLoading b st) = st_data st.
Proof. done. Qed.

Lemma st_data_select s st : st_data (select s st) = st_data st.
Proof. by destruct s. Qed.

(** What the handler does, by case on the two guards. *)
Lemma handleCompare_cases API_URL st :
  (st_coin1 st ≠ "" ∧ st_coin2 st ≠ "" ∧ st_coin1 st ≠ st_coin2 st ∧
   handleCompare API_URL st
   = (setLoading true st, Fetch <$> request_urls API_URL st, true)) ∨
  ((st_coin1 st = "" ∨ st_coin2 st = "" ∨ st_coin1 st = st_coin2 st) ∧
   ∃ msg, handleCompare API_URL st = (st, [Alert msg], false)).
Proof.
  unfold handleCompare.
  destruct (truthy (JStr (st_coin1 st))) eqn:E1,
           (truthy (JStr (st_coin2 st))) eqn:E2; cbn [negb orb].
  - apply truthy_JStr in E1, E2.
    destruct (String.eqb_spec (st_coin1 st) (st_coin2 st)) as [E|N].
    + right. split; [auto|eauto].
    + left. done.
  - right. split; [|eauto]. right; left.
    destruct (decide (st_coin2 st = "")) as [|N]; [done|].
    apply truthy_JStr in N. congruence.
  - right. split; [|eauto]. left.
    destruct (decide (st_coin1 st = "")) as [|N]; [done|].
    apply truthy_JStr in N. congruence.
  - right. split; [|eauto]. left.
    destruct (decide (st_coin1 st = "")) as [|N]; [done|].
    apply truthy_JStr in N. congruence.
Qed.

(** C10. [handleCompare] sends its requests exactly when both selections
    are non-empty and differ; otherwise it alerts, fetches nothing and
    leaves the page state as it was. *)
Theorem handleCompare_guard (API_URL : string) (st : state) :
  ((∃ url, Fetch url ∈ (handleCompare API_URL st).1.2) ↔
     st_coin1 st ≠ "" ∧ st_coin2 st ≠ "" ∧ st_coin1 st ≠ st_coin2 st) ∧
  (st_coin1 st ≠ "" ∧ st_coin2 st ≠ "" ∧ st_coin1 st ≠ st_coin2 st →
     (handleCompare API_URL st).1.2 = Fetch <$> request_urls API_URL st ∧
     (handleCompare API_URL st).2 = true) ∧
  (st_coin1 st = "" ∨ st_coin2 st = "" ∨ st_coin1 st = st_coin2 st →
     (handleCompare API_URL st).1.1 = st ∧
     (handleCompare API_URL st).2 = false ∧
     (∃ msg, (handleCompare API_URL st).1.2 = [Alert msg]) ∧
     ∀ url, Fetch url ∉ (handleCompare API_URL st).1.2).
Proof.
  destruct (handleCompare_cases API_URL st)
    as [(N1 & N2 & N12 & ->)|(Hbad & msg & ->)]; simpl.
  - split_and!.
    + split; [done|]. intros _. eexists. apply list_elem_of_here.
    + done.
    + intros [?|[?|?]]; done.
  - assert (∀ url, Fetch url ∉ [Alert msg]) as Hno.
    { intros url [=]%list_elem_of_singleton. }
    split_and!.
    + split; [intros [url Hurl]; by apply Hno in Hurl|].
      intros (N1 & N2 & N12). destruct Hbad as [?|[?|?]]; done.
    + intros (N1 & N2 & N12). destruct Hbad as [?|[?|?]]; done.
    + intros _. eauto.
Qed.

Lemma Promise_all_Fulfilled r a b c :
  Promise_all r = Settled (Fulfilled (a, b, c)) →
  p_compare r = Settled (Fulfilled a) ∧
  p_details1 r = Settled (Fulfilled b) ∧
  p_details2 r = Settled (Fulfilled c).
Proof.
  unfold Promise_all. destruct (first_rejection r); [done|].
  destruct (p_compare r) as [|[]]; try done.
  destruct (p_details1 r) as [|[]]; try done.
  destruct (p_details2 r) as [|[]]; try done.
  by intros [= -> -> ->].
Qed.

Lemma joined_step d0 r r' : step r r' → joined d0 r → joined d0 r'.
Proof.
  destruct 1 as [r o Hp|r o Hp|r o Hp|r s|r o Hres Hall];
    intros [[Hr Hd]|[Hr Hd]]; unfold joined; simpl.
  - by left.
  - right. split; [done|]. destruct Hd as [?|(?&?&?&?&?&?&?&?)]; [by left|].
    congruence.
  - by left.
  - right. split; [done|]. destruct Hd as [?|(?&?&?&?&?&?&?&?)]; [by left|].
    congruence.
  - by left.
  - right. split; [done|]. destruct Hd as [?|(?&?&?&?&?&?&?&?)]; [by left|].
    congruence.
  - left. by rewrite st_data_select.
  - right. split; [done|]. rewrite st_data_select.
    destruct Hd as [?|(c1&c2&d1&d2&?&?&?&?)]; [by left|].
    right. by exists c1, c2, d1, d2.
  - right. split; [done|]. destruct o as [[[res d1] d2]|msg]; simpl.
    + apply Promise_all_Fulfilled in Hall as (Hc & H1 & H2).
      unfold try_block. destruct res as [[c1|] [c2|]]; simpl; try by left.
      right. by exists c1, c2, d1, d2.
    + by left.
  - congruence.
Qed.

Lemma joined_rtc d0 r r' : rtc step r r' → joined d0 r → joined d0 r'.
Proof. induction 1; eauto using joined_step. Qed.

(** C5. From the moment [handleCompare] is suspended on [Promise.all],
    whatever the order in which responses arrive, [data] is only ever
    replaced once all three fetches are fulfilled, and then by the merge
    of both symbols' series. *)
Theorem no_partial_comparison (API_URL : string) (st0 st : state)
    (effs : list effect) (r : run) :
  handleCompare API_URL st0 = (st, effs, true) →
  rtc step (start st effs) r →
  st_data (page r) = st_data st0 ∨
  ∃ c1 c2 d1 d2,
    p_compare r = Settled (Fulfilled (CompareResult (Some c1) (Some c2))) ∧
    p_details1 r = Settled (Fulfilled d1) ∧
    p_details2 r = Settled (Fulfilled d2) ∧
    resumed r = true ∧
    st_data (page r) = Some (data_of c1 c2).
Proof.
  intros Hh Hrtc.
  assert (st_data st = st_data st0) as Hst.
  { destruct (handleCompare_cases API_URL st0)
      as [(_ & _ & _ & E)|(_ & msg & E)]; rewrite E in Hh; by simplify_eq. }
  apply (joined_rtc (st_data st0)) in Hrtc; [|by left].
  destruct Hrtc as [[_ ?]|[Hr [?|(c1&c2&d1&d2&?&?&?&?)]]]; [by left..|].
  right. by exists c1, c2, d1, d2.
Qed.

Lemma no_partial_comparison_witness :
  st_data (page Samples.run_4) = st_data Samples.page_AB ∨
  ∃ c1 c2 d1 d2,
    p_compare Samples.run_4
      = Settled (Fulfilled (CompareResult (Some c1) (Some c2))) ∧
    p_details1 Samples.run_4 = Settled (Fulfilled d1) ∧
    p_details2 Samples.run_4 = Settled (Fulfilled d2) ∧
    resumed Samples.run_4 = true ∧
    st_data (page Samples.run_4) = Some (data_of c1 c2).
Proof.
  apply (no_partial_comparison "http://localhost:8000" Samples.page_AB
           (setLoading true Samples.page_AB)
           (Fetch <$> request_urls "http://localhost:8000" Samples.page_AB)).
  - reflexivity.
  - apply (rtc_l _ _ Samples.run_1);
      [exact (step_details1 Samples.run_0 (Fulfilled Samples.details_A) eq_refl)|].
    apply (rtc_l _ _ Samples.run_2);
      [exact (step_details2 Samples.run_1 (Fulfilled Samples.details_B) eq_refl)|].
    apply (rtc_l _ _ Samples.run_3);
      [exact (step_compare Samples.run_2 (Fulfilled Samples.response_AB) eq_refl)|].
    apply (rtc_l _ _ Samples.run_4);
      [|apply rtc_refl].
    exact (step_resume Samples.run_3
             (Fulfilled (Samples.response_AB, Samples.details_A,
                         Samples.details_B)) eq_refl eq_refl).
Defined.

(** In that run the page ends up with the merge of both series. *)
Example run_4_data :
  st_data (page Samples.run_4)
  = Some (data_of Samples.series_A Samples.series_B).
Proof. reflexivity. Qed.

(** A response without its second leg sets nothing: the handler alerts. *)
Example one_leg_sets_nothing :
  handleCompare_resume
    (Fulfilled (CompareResult (Some Samples.series_A) None,
                Samples.details_A, Samples.details_B))
    (setLoading true Samples.page_AB)
  = (Samples.page_AB, [Alert (type_error "coin2")]).
Proof. reflexivity. Qed.

End handler_claims.

(** ** The dashboard *)

Section dashboard_claims.
Import JS Dashboard.
Context (localeCompare : string → string → Q).

Lemma alloc_fresh v (h : gmap positive (list coin)) : h !! (alloc v h).1 = None.
Proof. apply not_elem_of_dom. simpl. apply is_fresh. Qed.

Lemma spread_spec a (h : gmap positive (list coin)) v :
  h !! a = Some v →
  spread a h = Some (fresh (dom h), <[fresh (dom h) := v]> h).
Proof. intros E. unfold spread. by rewrite E. Qed.

Lemma sort_spec c a (h : gmap positive (list coin)) v :
  h !! a = Some v → sort c a h = Some (a, <[a := Array_sort c v]> h).
Proof. intros E. unfold sort. by rewrite E. Qed.

Lemma slice_spec n a (h : gmap positive (list coin)) v :
  h !! a = Some v →
  slice n a h = Some (fresh (dom h), <[fresh (dom h) := take n v]> h).
Proof. intros E. unfold slice. by rewrite E. Qed.

Local Arguments spread : simpl never.
Local Arguments sort : simpl never.
Local Arguments slice : simpl never.

(** C9. One render of [Dashboard] leaves the array held by [coins], and
    every other array that existed before, as it was: [sortedCoins] is a
    rearrangement of the coins in a new array, [topMovers] has at most five
    of them in another new array, and the count shown is the length of
    [coins], whatever the sort key. *)
Theorem render_frame (sortBy : string) (coins : positive)
    (h : gmap positive (list coin)) (cs : list coin) :
  h !! coins = Some cs →
  ∃ r, render localeCompare sortBy coins h = Some r ∧
    heap_after r !! coins = Some cs ∧
    (∀ l, is_Some (h !! l) → heap_after r !! l = h !! l) ∧
    sortedCoins r ≠ coins ∧ topMovers r ≠ coins ∧
    (∃ s, heap_after r !! sortedCoins r = Some s ∧ s ≡ₚ cs) ∧
    (∃ t s, heap_after r !! topMovers r = Some t ∧ t = take 5 s ∧ s ≡ₚ cs ∧
            (length t ≤ 5)%nat) ∧
    shown_count r = length cs.
Proof.
  intros Hcs. unfold render.
  rewrite (spread_spec coins h cs Hcs). simpl.
  set (h1 := <[fresh (dom h) := cs]> h).
  pose proof (alloc_fresh cs h) as F1.
  change (h !! fresh (dom h) = None) in F1.
  assert (fresh (dom h) ≠ coins) as N1 by (intros E; congruence).
  assert (h1 !! fresh (dom h) = Some cs) as E1 by (unfold h1; by simplify_map_eq).
  rewrite (sort_spec _ _ _ _ E1). simpl.
  set (h2 := <[fresh (dom h) :=
                 Array_sort (sortedCoins_compare localeCompare sortBy) cs]> h1).
  assert (h2 !! coins = Some cs) as E2 by (unfold h2, h1; by simplify_map_eq).
  rewrite (spread_spec coins h2 cs E2). simpl.
  set (h3 := <[fresh (dom h2) := cs]> h2).
  pose proof (alloc_fresh cs h2) as F2.
  change (h2 !! fresh (dom h2) = None) in F2.
  assert (fresh (dom h2) ≠ coins) as N2 by (intros E; congruence).
  assert (fresh (dom h2) ≠ fresh (dom h)) as N21.
  { assert (h2 !! fresh (dom h) =
            Some (Array_sort (sortedCoins_compare localeCompare sortBy) cs))
      as E21 by (unfold h2; by simplify_map_eq).
    intros E. rewrite <- E, F2 in E21. done. }
  assert (h3 !! fresh (dom h2) = Some cs) as E3 by (unfold h3; by simplify_map_eq).
  rewrite (sort_spec _ _ _ _ E3). simpl.
  set (h4 := <[fresh (dom h2) := Array_sort topMovers_compare cs]> h3).
  assert (h4 !! fresh (dom h2) = Some (Array_sort topMovers_compare cs)) as E4
    by (unfold h4; by simplify_map_eq).
  rewrite (slice_spec _ _ _ _ E4). simpl.
  set (h5 := <[fresh (dom h4) := take 5 (Array_sort topMovers_compare cs)]> h4).
  pose proof (alloc_fresh (take 5 (Array_sort topMovers_compare cs)) h4) as F3.
  change (h4 !! fresh (dom h4) = None) in F3.
  assert (h4 !! coins = Some cs) as E4c
    by (unfold h4, h3; by simplify_map_eq).
  assert (fresh (dom h4) ≠ coins) as N3 by (intros E; congruence).
  assert (h4 !! fresh (dom h) =
          Some (Array_sort (sortedCoins_compare localeCompare sortBy) cs)) as E41
    by (unfold h4, h3, h2; by simplify_map_eq).
  assert (fresh (dom h4) ≠ fresh (dom h)) as N31 by (intros E; congruence).
  assert (h5 !! coins = Some cs) as E5 by (unfold h5; by simplify_map_eq).
  rewrite E5. simpl. eexists. split; [done|]. simpl. split_and!.
  - done.
  - intros l [v Hl].
    assert (l ≠ fresh (dom h)) as L1 by (intros ->; congruence).
    assert (h2 !! l = Some v) as L2 by (unfold h2, h1; by simplify_map_eq).
    assert (l ≠ fresh (dom h2)) as L3 by (intros ->; congruence).
    assert (h4 !! l = Some v) as L4 by (unfold h4, h3; by simplify_map_eq).
    assert (l ≠ fresh (dom h4)) as L5 by (intros ->; congruence).
    unfold h5. by simplify_map_eq.
  - done.
  - done.
  - eexists. split; [unfold h5; by simplify_map_eq|].
    apply Array_sort_Permutation.
  - exists (take 5 (Array_sort topMovers_compare cs)),
           (Array_sort topMovers_compare cs).
    split_and!; [unfold h5; by simplify_map_eq|done| |].
    + apply Array_sort_Permutation.
    + rewrite length_take. lia.
  - done.
Qed.

End dashboard_claims.

Lemma render_frame_witness :
  ∃ r, Dashboard.render JS.default_compare "price" 1%positive Samples.heap_AB
       = Some r ∧
    Dashboard.heap_after r !! 1%positive
      = Some [Samples.coin_B; Samples.coin_A] ∧
    (∀ l, is_Some (Samples.heap_AB !! l) →
          Dashboard.heap_after r !! l = Samples.heap_AB !! l) ∧
    Dashboard.sortedCoins r ≠ 1%positive ∧
    Dashboard.topMovers r ≠ 1%positive ∧
    (∃ s, Dashboard.heap_after r !! Dashboard.sortedCoins r = Some s ∧
          s ≡ₚ [Samples.coin_B; Samples.coin_A]) ∧
    (∃ t s, Dashboard.heap_after r !! Dashboard.topMovers r = Some t ∧
            t = take 5 s ∧ s ≡ₚ [Samples.coin_B; Samples.coin_A] ∧
            (length t ≤ 5)%nat) ∧
    Dashboard.shown_count r = length [Samples.coin_B; Samples.coin_A].
Proof.
  apply (render_frame JS.default_compare "price" 1%positive Samples.heap_AB).
  reflexivity.
Defined.

(** ** The coin page *)

Section coin_detail_claims.
Import JS CoinDetail.

Lemma app_empty_r (s : string) : s ++ "" = s.
Proof.
  induction s as [|c s IH]; [done|].
  change (String c (s ++ "") = String c s). by rewrite IH.
Qed.

Lemma timeframe_kept (acts : list action) : ∀ st,
  Forall (λ a, is_SetTimeframe a = false) acts →
  timeframe (foldl update st acts) = timeframe st.
Proof.
  induction acts as [|a acts IH]; intros st Hall; simpl; [done|].
  apply Forall_cons in Hall as [Ha Hall]. rewrite IH by done.
  by destruct a.
Qed.

Lemma no_coin_Some cid : no_coin (Some cid) = false ↔ cid ≠ "".
Proof.
  simpl. destruct (String.eqb_spec cid ""); simpl; split; congruence.
Qed.

(** C6. The prediction request always carries [lookback=30] and
    [epochs=15], and as long as no [setTimeframe] happened the technical
    request carries [timeframe=1m]. *)
Theorem default_parameters (API_URL : string) (id : option string)
    (acts : list action) :
  Forall (λ a, is_SetTimeframe a = false) acts →
  timeframe (foldl update init acts) = "1m" ∧
  (∀ url,
      url ∈ technical_requests API_URL (coinId id) (foldl update init acts) →
      ∃ cid, coinId id = Some cid ∧
        url = API_URL ++ "/coins/" ++ cid ++ "/technical?timeframe=1m") ∧
  (∀ st url,
      url ∈ prediction_requests API_URL (coinId id) st →
      ∃ cid, coinId id = Some cid ∧
        url = API_URL ++ "/coins/" ++ cid ++ "/predict?lookback=30&epochs=15") ∧
  (∀ cid, coinId id = Some cid → cid ≠ "" →
      (activeTab (foldl update init acts) = "technical" →
       technical_requests API_URL (coinId id) (foldl update init acts)
       = [API_URL ++ "/coins/" ++ cid ++ "/technical?timeframe=1m"]) ∧
      (∀ st, activeTab st = "prediction" →
       prediction_requests API_URL (coinId id) st
       = [API_URL ++ "/coins/" ++ cid ++ "/predict?lookback=30&epochs=15"])).
Proof.
  intros Hall. pose proof (timeframe_kept acts init Hall) as Htf.
  simpl in Htf. split_and!; [done|..].
  - intros url. unfold technical_requests.
    destruct (coinId id) as [cid|]; [|by intros ?%elem_of_nil].
    destruct (_ || _); [by intros ?%elem_of_nil|].
    intros ->%list_elem_of_singleton. rewrite Htf. eauto.
  - intros st url. unfold prediction_requests.
    destruct (coinId id) as [cid|]; [|by intros ?%elem_of_nil].
    destruct (_ || _); [by intros ?%elem_of_nil|].
    intros ->%list_elem_of_singleton. eauto.
  - intros cid -> Hne. apply no_coin_Some in Hne. split.
    + intros Htab. unfold technical_requests.
      rewrite Hne, Htab, Htf. done.
    + intros st Htab. unfold prediction_requests. rewrite Hne, Htab. done.
Qed.

Lemma default_parameters_witness :
  timeframe (foldl update init [SetActiveTab "technical"; SetDays 30]) = "1m" ∧
  (∀ url,
      url ∈ technical_requests "http://localhost:8000" (coinId (Some "btc"))
              (foldl update init [SetActiveTab "technical"; SetDays 30]) →
      ∃ cid, coinId (Some "btc") = Some cid ∧
        url = "http://localhost:8000" ++ "/coins/" ++ cid
              ++ "/technical?timeframe=1m") ∧
  (∀ st url,
      url ∈ prediction_requests "http://localhost:8000" (coinId (Some "btc")) st →
      ∃ cid, coinId (Some "btc") = Some cid ∧
        url = "http://localhost:8000" ++ "/coins/" ++ cid
              ++ "/predict?lookback=30&epochs=15") ∧
  (∀ cid, coinId (Some "btc") = Some cid → cid ≠ "" →
      (activeTab (foldl update init [SetActiveTab "technical"; SetDays 30])
       = "technical" →
       technical_requests "http://localhost:8000" (coinId (Some "btc"))
         (foldl update init [SetActiveTab "technical"; SetDays 30])
       = ["http://localhost:8000" ++ "/coins/" ++ cid
          ++ "/technical?timeframe=1m"]) ∧
      (∀ st, activeTab st = "prediction" →
       prediction_requests "http://localhost:8000" (coinId (Some "btc")) st
       = ["http://localhost:8000" ++ "/coins/" ++ cid
          ++ "/predict?lookback=30&epochs=15"])).
Proof.
  apply (default_parameters "http://localhost:8000" (Some "btc")
           [SetActiveTab "technical"; SetDays 30]).
  repeat constructor.
Defined.

(** The requests of the page on its technical and prediction tabs. *)
Example technical_request_BTC :
  technical_requests "http://localhost:8000" (coinId (Some "btc"))
    (update init (SetActiveTab "technical"))
  = ["http://localhost:8000/coins/BTC/technical?timeframe=1m"].
Proof. reflexivity. Qed.

Example prediction_request_BTC :
  prediction_requests "http://localhost:8000" (coinId (Some "btc"))
    (update init (SetActiveTab "prediction"))
  = ["http://localhost:8000/coins/BTC/predict?lookback=30&epochs=15"].
Proof. reflexivity. Qed.

End coin_detail_claims.

(** ** From the card to the coin page *)

Section symbol_claims.
Import JS CoinDetail.

Lemma route_id_coin seg :
  route_id ("/coin/" ++ seg)
  = if String.eqb seg "" || has_slash seg then None else Some seg.
Proof. reflexivity. Qed.

(** On a letter of a ticker, lowering and raising the case gives the
    letter back, and the lowered letter is no slash. *)
Lemma ticker_char c :
  is_upper c || is_digit c = true →
  upper_char (lower_char c) = c ∧ Ascii.eqb (lower_char c) "/" = false.
Proof.
  destruct c as [[] [] [] [] [] [] [] []]; vm_compute;
    intros H; (discriminate H || by split).
Qed.

Lemma upper_char_not_lower c : is_lower (upper_char c) = false.
Proof. destruct c as [[] [] [] [] [] [] [] []]; reflexivity. Qed.

Lemma ticker_round_trip sym :
  ticker sym = true → toUpperCase (toLowerCase sym) = sym.
Proof.
  unfold ticker, toUpperCase, toLowerCase.
  induction sym as [|c s IH]; simpl; [done|].
  intros [Hc Hs]%andb_prop. apply ticker_char in Hc as [-> _].
  by rewrite IH.
Qed.

Lemma ticker_no_slash sym :
  ticker sym = true → has_slash (toLowerCase sym) = false.
Proof.
  unfold ticker, toLowerCase.
  induction sym as [|c s IH]; simpl; [done|].
  intros [Hc Hs]%andb_prop. apply ticker_char in Hc as [_ ->].
  by apply IH.
Qed.

Lemma toLowerCase_empty sym : toLowerCase sym = "" → sym = "".
Proof. by destruct sym. Qed.

Lemma toUpperCase_no_lower s :
  all_chars (λ c, negb (is_lower c)) (toUpperCase s) = true.
Proof.
  unfold toUpperCase. induction s as [|c s IH]; simpl; [done|].
  by rewrite upper_char_not_lower, IH.
Qed.

Lemma requests_of_coin API_URL cid st url :
  url ∈ requests API_URL (Some cid) st →
  ∃ rest, url = API_URL ++ "/coins/" ++ cid ++ rest.
Proof.
  unfold requests, history_requests, technical_requests, prediction_requests,
    onchain_requests.
  rewrite !elem_of_app.
  intros [H|[H|[H|H]]]; revert H;
    (destruct (_ : bool); [by intros ?%elem_of_nil|]).
  - rewrite elem_of_cons, list_elem_of_singleton. intros [->| ->].
    + exists "". by rewrite app_empty_r.
    + eauto.
  - intros ->%list_elem_of_singleton. eauto.
  - intros ->%list_elem_of_singleton. eauto.
  - intros ->%list_elem_of_singleton. eauto.
Qed.

(** C7. For a symbol of upper-case letters and digits, the link of the
    card lower-cases it and the coin page recovers it by upper-casing the
    route parameter; every request of the page then names that symbol,
    and whatever the parameter, the page's coin id has no lower-case
    letter. *)
Theorem symbol_case_round_trip (sym : string) :
  ticker sym = true → sym ≠ "" →
  route_id (CryptoCard.href sym) = Some (toLowerCase sym) ∧
  coinId (route_id (CryptoCard.href sym)) = Some sym ∧
  (∀ API_URL st url,
      url ∈ requests API_URL (coinId (route_id (CryptoCard.href sym))) st →
      ∃ rest, url = API_URL ++ "/coins/" ++ sym ++ rest) ∧
  (∀ id cid, coinId id = Some cid →
      all_chars (λ c, negb (is_lower c)) cid = true).
Proof.
  intros Ht Hne.
  assert (route_id (CryptoCard.href sym) = Some (toLowerCase sym)) as Hr.
  { unfold CryptoCard.href. rewrite route_id_coin, ticker_no_slash by done.
    destruct (String.eqb_spec (toLowerCase sym) "") as [E|_]; [|done].
    by apply toLowerCase_empty in E. }
  assert (coinId (route_id (CryptoCard.href sym)) = Some sym) as Hc.
  { rewrite Hr. simpl. by rewrite ticker_round_trip. }
  split_and!; [done|done| |].
  - intros API_URL st url. rewrite Hc. apply requests_of_coin.
  - intros [id|] cid; [|done]. intros [= <-]. apply toUpperCase_no_lower.
Qed.

Lemma symbol_case_round_trip_witness :
  route_id (CryptoCard.href "BTC") = Some (toLowerCase "BTC") ∧
  coinId (route_id (CryptoCard.href "BTC")) = Some "BTC" ∧
  (∀ API_URL st url,
      url ∈ requests API_URL (coinId (route_id (CryptoCard.href "BTC"))) st →
      ∃ rest, url = API_URL ++ "/coins/" ++ "BTC" ++ rest) ∧
  (∀ id cid, coinId id = Some cid →
      all_chars (λ c, negb (is_lower c)) cid = true).
Proof.
  apply (symbol_case_round_trip "BTC"); [reflexivity|discriminate].
Defined.

Example href_BTC : CryptoCard.href "BTC" = "/coin/btc".
Proof. reflexivity. Qed.

(** A symbol written in lower case is not recovered. *)
Example lower_case_symbol_lost :
  coinId (route_id (CryptoCard.href "btc")) = Some "BTC".
Proof. reflexivity. Qed.

End symbol_claims.

(** ** The chart components *)

Section chart_claims.
Import JS Charts.

Lemma chart_no_placeholder (m : render (list candle)) text :
  (bind m (λ candleData, ret (ComposedChart candleData))).2
  ≠ inr (Placeholder text).
Proof. destruct m as [t [e|cs]]; simpl; done. Qed.

(** C8. Given no data ([null], [undefined] or an empty array), each of
    the two components returns its placeholder without reading a field of
    any element and without raising. *)
Theorem charts_total_without_data :
  (∀ color,
      Sparkline None color = ([], inr (Placeholder "No data")) ∧
      Sparkline (Some []) color = ([], inr (Placeholder "No data"))) ∧
  CandlestickChart None = ([], inr (Placeholder "No data available")) ∧
  CandlestickChart (Some []) = ([], inr (Placeholder "No data available")) ∧
  (∀ data color, (Sparkline data color).1 = []) ∧
  (∀ data color,
      (∃ text, (Sparkline data color).2 = inr (Placeholder text)) ↔
      data = None ∨ data = Some []) ∧
  (∀ data,
      (∃ text, (CandlestickChart data).2 = inr (Placeholder text)) ↔
      data = None ∨ data = Some []).
Proof.
  split_and!; try done.
  - intros [[|d l]|] color; reflexivity.
  - intros [[|d l]|] color; simpl; split; eauto.
    + intros [text [=]].
    + intros [[=]|[=]].
  - intros [[|d l]|]; split; try (simpl; by eauto).
    + intros [text H]. by apply chart_no_placeholder in H.
    + intros [[=]|[=]].
Qed.

(** With data, [CandlestickChart] does read the bars, and raises on a
    [null] element. *)
Example candlestick_reads :
  (CandlestickChart (Some [Some (Bar "2024-01-01" 1 2 3 1)])).1
  = Read 0 <$> ["date"; "open"; "close"; "high"; "low"; "close"; "open";
                "open"; "close"; "open"; "close"].
Proof. reflexivity. Qed.

Example candlestick_null_element :
  CandlestickChart (Some [None])
  = ([], inl "Cannot read properties of null (reading 'date')").
Proof. reflexivity. Qed.

End chart_claims.

(** ** More on the comparison page *)

Section compare_more.
Import JS Compare CompareRun.

Lemma handleCompare_suspended API_URL st0 st effs :
  handleCompare API_URL st0 = (st, effs, true) →
  st = setLoading true st0 ∧ effs = Fetch <$> request_urls API_URL st0.
Proof.
  intros Hh. destruct (handleCompare_cases API_URL st0)
    as [(_ & _ & _ & E)|(_ & msg & E)]; rewrite E in Hh; by simplify_eq.
Qed.

Lemma st_loading_select s st : st_loading (select s st) = st_loading st.
Proof. by destruct s. Qed.

Lemma st_loading_resume o st : st_loading (handleCompare_resume o st).1 = false.
Proof.
  destruct o as [[[res d1] d2]|msg]; simpl; [|done].
  by destruct (try_block res d1 d2 st).
Qed.

(** The button is disabled ([loading]) exactly while the handler is
    suspended: [loading] is set before the fetches and cleared by the
    [finally], whatever the outcome. *)
Theorem loading_while_in_flight (API_URL : string) (st0 st : state)
    (effs : list effect) (r : run) :
  handleCompare API_URL st0 = (st, effs, true) →
  rtc step (start st effs) r →
  st_loading (page r) = negb (resumed r).
Proof.
  intros [-> _]%handleCompare_suspended Hrtc.
  remember (start (setLoading true st0) effs) as r0 eqn:E0.
  assert (st_loading (page r0) = negb (resumed r0)) as H0 by (by subst r0).
  clear E0. induction Hrtc as [|r1 r2 r3 Hstep _ IH]; [done|].
  apply IH. destruct Hstep; simpl; try done.
  - by rewrite st_loading_select.
  - by rewrite st_loading_resume.
Qed.

Lemma loading_while_in_flight_witness :
  st_loading (page Samples.run_4) = negb (resumed Samples.run_4).
Proof.
  apply (loading_while_in_flight "http://localhost:8000" Samples.page_AB
           (setLoading true Samples.page_AB)
           (Fetch <$> request_urls "http://localhost:8000" Samples.page_AB)).
  - reflexivity.
  - apply (rtc_l _ _ Samples.run_1);
      [exact (step_details1 Samples.run_0 (Fulfilled Samples.details_A) eq_refl)|].
    apply (rtc_l _ _ Samples.run_2);
      [exact (step_details2 Samples.run_1 (Fulfilled Samples.details_B) eq_refl)|].
    apply (rtc_l _ _ Samples.run_3);
      [exact (step_compare Samples.run_2 (Fulfilled Samples.response_AB) eq_refl)|].
    apply (rtc_l _ _ Samples.run_4); [|apply rtc_refl].
    exact (step_resume Samples.run_3
             (Fulfilled (Samples.response_AB, Samples.details_A,
                         Samples.details_B)) eq_refl eq_refl).
Defined.

Lemma shown_select s st : shown (select s st) = shown st.
Proof. by destruct s. Qed.

Lemma shown_setLoading b st : shown (setLoading b st) = shown st.
Proof. done. Qed.

Lemma written_only_when_fulfilled s0 r r' :
  step r r' →
  shown (page r) = s0 ∨ all_fulfilled r →
  shown (page r') = s0 ∨ all_fulfilled r'.
Proof.
  unfold all_fulfilled, is_fulfilled.
  destruct 1 as [r o Hp|r o Hp|r o Hp|r s|r o Hres Hall]; simpl.
  - intros [?|([a Ha] & _ & _)]; [by left|congruence].
  - intros [?|(_ & [a Ha] & _)]; [by left|congruence].
  - intros [?|(_ & _ & [a Ha])]; [by left|congruence].
  - rewrite shown_select. done.
  - intros Hs. destruct o as [[[res d1] d2]|msg]; simpl.
    + apply Promise_all_Fulfilled in Hall as (Hc & H1 & H2).
      right. split_and!; eauto.
    + by rewrite shown_setLoading.
Qed.

Lemma written_rtc s0 r r' :
  rtc step r r' →
  shown (page r) = s0 ∨ all_fulfilled r →
  shown (page r') = s0 ∨ all_fulfilled r'.
Proof. induction 1; eauto using written_only_when_fulfilled. Qed.

(** When one of the three requests fails, nothing of the comparison is
    written: [data] and both details cells keep what they held when the
    handler started, however the other requests end. *)
Theorem failed_request_writes_nothing (API_URL : string) (st0 st : state)
    (effs : list effect) (r : run) :
  handleCompare API_URL st0 = (st, effs, true) →
  rtc step (start st effs) r →
  is_rejected (p_compare r) ∨ is_rejected (p_details1 r)
    ∨ is_rejected (p_details2 r) →
  st_data (page r) = st_data st0 ∧
  st_coin1Details (page r) = st_coin1Details st0 ∧
  st_coin2Details (page r) = st_coin2Details st0.
Proof.
  intros [-> _]%handleCompare_suspended Hrtc Hrej.
  assert (shown (page r) = shown st0 ∨ all_fulfilled r) as [Hs|Hf].
  { eapply written_rtc; [done|]. by left. }
  - unfold shown in Hs. by simplify_eq.
  - destruct Hf as ([a Ha] & [b Hb] & [c Hc]).
    destruct Hrej as [[m Hm]|[[m Hm]|[m Hm]]]; congruence.
Qed.

Lemma failed_request_writes_nothing_witness :
  st_data (page MoreSamples.failed_2) = st_data Samples.page_AB ∧
  st_coin1Details (page MoreSamples.failed_2)
    = st_coin1Details Samples.page_AB ∧
  st_coin2Details (page MoreSamples.failed_2)
    = st_coin2Details Samples.page_AB.
Proof.
  apply (failed_request_writes_nothing "http://localhost:8000"
           Samples.page_AB (setLoading true Samples.page_AB)
           (Fetch <$> request_urls "http://localhost:8000" Samples.page_AB)).
  - reflexivity.
  - apply (rtc_l _ _ MoreSamples.failed_1);
      [exact (step_details2 Samples.run_0 (Rejected "Failed to fetch") eq_refl)|].
    apply (rtc_l _ _ MoreSamples.failed_2); [|apply rtc_refl].
    exact (step_resume MoreSamples.failed_1 (Rejected "Failed to fetch")
             eq_refl eq_refl).
  - right; right. by exists "Failed to fetch".
Defined.





Lemma or_null_cases v : or v JNull = JNull ∨ truthy (or v JNull) = true.
Proof. unfold or. destruct (truthy v) eqn:E; auto. Qed.

(** Under a symbol key a merged entry never holds [0], [undefined] or an
    empty string: the value is [null] or truthy. *)
Theorem merged_values_null_or_truthy (c1 c2 : coin_series)
    (e : gmap string jsval) (k : string) (v : jsval) :
  e ∈ merged c1 c2 → k ≠ "date" → e !! k = Some v →
  v = JNull ∨ truthy v = true.
Proof.
  intros (dt & _ & ->)%elem_of_merged Hk. unfold entry.
  rewrite lookup_insert. case_decide as E2.
  { intros [= <-]. apply or_null_cases. }
  rewrite lookup_insert. case_decide as E1.
  { intros [= <-]. apply or_null_cases. }
  rewrite lookup_insert_ne, lookup_empty by done. done.
Qed.

Lemma merged_values_null_or_truthy_witness :
  JNum 10 = JNull ∨ truthy (JNum 10) = true.
Proof.
  apply (merged_values_null_or_truthy Samples.series_A Samples.series_B
           (entry "2024-01-01" "A" (JNum 10) "B" JNull) "A" (JNum 10)).
  - apply list_elem_of_fmap. exists "2024-01-01". split; [reflexivity|].
    apply list_elem_of_here.
  - discriminate.
  - reflexivity.
Defined.

Lemma find_first {A} (p : A → bool) l1 b l2 :
  p b = true → (∀ x, x ∈ l1 → p x = false) →
  Array_find p (l1 ++ b :: l2)%list = Some b.
Proof.
  intros Hb. unfold Array_find. induction l1 as [|x l1 IH]; intros Hl1; simpl.
  - by rewrite Hb.
  - rewrite (Hl1 x) by apply list_elem_of_here.
    apply IH. intros y Hy. apply Hl1. by apply list_elem_of_further.
Qed.

Lemma find_first_date b l1 l2 :
  date b ∉ date <$> l1 →
  Array_find (λ d, String.eqb (date d) (date b)) (l1 ++ b :: l2)%list = Some b.
Proof.
  intros Hb. apply find_first; [apply String.eqb_refl|].
  intros x Hx. apply String.eqb_neq. intros E. apply Hb.
  rewrite <- E. by apply list_elem_of_fmap_2.
Qed.

(** When a series has several bars on one date, the merge takes the first
    of them in the order of the response, and shows its close unless that
    is falsy ([0], missing), in which case it shows [null]. *)
Theorem merged_first_bar (c1 c2 : coin_series) (e : gmap string jsval) :
  symbol c1 ≠ "date" → symbol c2 ≠ "date" → symbol c1 ≠ symbol c2 →
  e ∈ merged c1 c2 →
  (∀ l1 b l2, data c1 = (l1 ++ b :: l2)%list → date b ∉ date <$> l1 →
      entry_date e = Some (date b) →
      e !! symbol c1 = Some (or (close b) JNull)) ∧
  (∀ l1 b l2, data c2 = (l1 ++ b :: l2)%list → date b ∉ date <$> l1 →
      entry_date e = Some (date b) →
      e !! symbol c2 = Some (or (close b) JNull)).
Proof.
  intros H1 H2 H12 (dt & _ & ->)%elem_of_merged.
  rewrite entry_date_entry by done.
  split; intros l1 b l2 Hd Hb [= ->].
  - rewrite entry_lookup_1 by done. by rewrite Hd, find_first_date.
  - rewrite entry_lookup_2. by rewrite Hd, find_first_date.
Qed.

Lemma merged_first_bar_witness :
  (∀ l1 b l2, data MoreSamples.series_dup = (l1 ++ b :: l2)%list →
      date b ∉ date <$> l1 →
      entry_date (entry "2024-01-01" "A" (JNum 10) "B" JNull)
        = Some (date b) →
      entry "2024-01-01" "A" (JNum 10) "B" JNull !! "A"
        = Some (or (close b) JNull)) ∧
  (∀ l1 b l2, data Samples.series_B = (l1 ++ b :: l2)%list →
      date b ∉ date <$> l1 →
      entry_date (entry "2024-01-01" "A" (JNum 10) "B" JNull)
        = Some (date b) →
      entry "2024-01-01" "A" (JNum 10) "B" JNull !! "B"
        = Some (or (close b) JNull)).
Proof.
  apply (merged_first_bar MoreSamples.series_dup Samples.series_B);
    try discriminate.
  apply list_elem_of_fmap. exists "2024-01-01". split; [reflexivity|].
  apply list_elem_of_here.
Defined.

(** Two bars on one day and a close of 0, evaluated. *)
Example merged_dup_B :
  (λ e, (entry_date e, e !! "A", e !! "B"))
    <$> merged MoreSamples.series_dup Samples.series_B
  = [ (Some "2024-01-01", Some (JNum 10), Some JNull);
      (Some "2024-01-02", Some JNull, Some (JNum 20));
      (Some "2024-01-03", Some JNull, Some (JNum 21));
      (Some "2024-01-04", Some JNull, Some (JNum 22)) ].
Proof. vm_compute. reflexivity. Qed.

Lemma merged_length_dates c1 c2 :
  length (merged c1 c2) = length (all_dates c1 c2).
Proof. unfold merged. by rewrite length_fmap, Array_sort_length. Qed.

(** The merge has at most as many entries as both series have bars, is
    empty only when both series are, and a series with one bar per day
    has no more bars than the merge has entries. *)
Theorem merged_length (c1 c2 : coin_series) :
  (length (merged c1 c2) ≤ length (data c1) + length (data c2))%nat ∧
  (merged c1 c2 = [] ↔ data c1 = [] ∧ data c2 = []) ∧
  (NoDup (date <$> data c1) →
     (length (data c1) ≤ length (merged c1 c2))%nat) ∧
  (NoDup (date <$> data c2) →
     (length (data c2) ≤ length (merged c1 c2))%nat).
Proof.
  rewrite merged_length_dates. split_and!.
  - rewrite <- (length_fmap date (data c1)), <- (length_fmap date (data c2)).
    rewrite <- length_app. apply submseteq_length, NoDup_submseteq.
    + apply all_dates_NoDup.
    + intros x. rewrite all_dates_elem, elem_of_app. done.
  - split.
    + intros Hm. apply (f_equal length) in Hm.
      rewrite merged_length_dates in Hm. apply nil_length_inv in Hm.
      assert (∀ x, (x ∉ date <$> data c1) ∧ (x ∉ date <$> data c2)) as Hno.
      { intros x. pose proof (all_dates_elem x c1 c2) as Hx.
        rewrite Hm, elem_of_nil in Hx. tauto. }
      split.
      * destruct (data c1) as [|b l]; [done|].
        destruct (Hno (date b)) as [[] _]. apply list_elem_of_here.
      * destruct (data c2) as [|b l]; [done|].
        destruct (Hno (date b)) as [_ []]. apply list_elem_of_here.
    + intros [E1 E2]. unfold merged, all_dates. by rewrite E1, E2.
  - intros Hn. rewrite <- (length_fmap date (data c1)).
    apply submseteq_length, NoDup_submseteq; [done|].
    intros x Hx. apply all_dates_elem. by left.
  - intros Hn. rewrite <- (length_fmap date (data c2)).
    apply submseteq_length, NoDup_submseteq; [done|].
    intros x Hx. apply all_dates_elem. by right.
Qed.

End compare_more.

(** ** More on the dashboard *)

Section sort_more.
Context {A : Type} (comparefn : A → A → Q).

(** An array that is already in order comes back as it is. *)
Lemma sort_insert_front x l :
  HdRel (JS.cmp_le comparefn) x l → JS.sort_insert comparefn x l = x :: l.
Proof.
  destruct 1 as [|y l Hxy]; simpl; [done|].
  unfold JS.cmp_le in Hxy. by rewrite Hxy.
Qed.

Lemma Array_sort_sorted_id l :
  Sorted (JS.cmp_le comparefn) l → JS.Array_sort comparefn l = l.
Proof.
  induction 1 as [|x l Hl IH Hhd]; simpl; [done|].
  rewrite IH. by apply sort_insert_front.
Qed.

End sort_more.

Section dashboard_more.
Import JS Dashboard DashboardPage.
Context (localeCompare : string → string → Q).

Local Arguments spread : simpl never.
Local Arguments sort : simpl never.
Local Arguments slice : simpl never.

(** The arrays one render leaves behind [sortedCoins] and [topMovers]. *)
Lemma render_arrays (sortBy : string) (coins : positive)
    (h : gmap positive (list coin)) (cs : list coin) :
  h !! coins = Some cs →
  ∃ r, render localeCompare sortBy coins h = Some r ∧
    heap_after r !! sortedCoins r
      = Some (Array_sort (sortedCoins_compare localeCompare sortBy) cs) ∧
    heap_after r !! topMovers r
      = Some (take 5 (Array_sort topMovers_compare cs)).
Proof.
  intros Hcs. unfold render.
  pose proof (alloc_fresh cs h) as F1.
  change (h !! fresh (dom h) = None) in F1.
  rewrite (spread_spec coins h cs Hcs). simpl.
  set (l1 := fresh (dom h)) in *.
  set (h1 := <[l1 := cs]> h).
  assert (l1 ≠ coins) as N1 by (intros E; congruence).
  rewrite (sort_spec _ l1 h1 cs) by (unfold h1; by simplify_map_eq). simpl.
  set (h2 := <[l1 := Array_sort (sortedCoins_compare localeCompare sortBy) cs]> h1).
  assert (h2 !! coins = Some cs) as E2 by (unfold h2, h1; by simplify_map_eq).
  pose proof (alloc_fresh cs h2) as F2.
  change (h2 !! fresh (dom h2) = None) in F2.
  rewrite (spread_spec coins h2 cs E2). simpl.
  set (l2 := fresh (dom h2)) in *.
  set (h3 := <[l2 := cs]> h2).
  assert (l2 ≠ coins) as N2 by (intros E; congruence).
  assert (l2 ≠ l1) as N21.
  { intros E. rewrite E in F2. unfold h2 in F2. by simplify_map_eq. }
  rewrite (sort_spec _ l2 h3 cs) by (unfold h3; by simplify_map_eq). simpl.
  set (h4 := <[l2 := Array_sort topMovers_compare cs]> h3).
  assert (h4 !! l2 = Some (Array_sort topMovers_compare cs)) as E4
    by (unfold h4; by simplify_map_eq).
  assert (h4 !! coins = Some cs) as E4c
    by (unfold h4, h3; by simplify_map_eq).
  assert (h4 !! l1
          = Some (Array_sort (sortedCoins_compare localeCompare sortBy) cs))
    as E41 by (unfold h4, h3, h2; by simplify_map_eq).
  pose proof (alloc_fresh (take 5 (Array_sort topMovers_compare cs)) h4) as F3.
  change (h4 !! fresh (dom h4) = None) in F3.
  rewrite (slice_spec 5 l2 h4 _ E4). simpl.
  set (l3 := fresh (dom h4)) in *.
  assert (l3 ≠ coins) as N3 by (intros E; congruence).
  assert (l3 ≠ l1) as N31 by (intros E; congruence).
  rewrite lookup_insert_ne, E4c by done. simpl.
  eexists. split; [done|]. simpl. split.
  - by rewrite lookup_insert_ne.
  - by rewrite lookup_insert_eq.
Qed.

Lemma Qsub_le0 (x y : Q) : Qle_bool (x - y) 0 = true ↔ (x <= y)%Q.
Proof. rewrite Qle_bool_iff. split; intros; lra. Qed.

Lemma compare_numeric sortBy a b :
  numeric_key sortBy = true →
  sortedCoins_compare localeCompare sortBy a b
  = (sort_key sortBy b - sort_key sortBy a)%Q.
Proof.
  unfold numeric_key, sortedCoins_compare, sort_key.
  destruct (String.eqb_spec sortBy "price") as [->|_]; [done|].
  destruct (String.eqb_spec sortBy "change") as [->|_]; [done|].
  destruct (String.eqb_spec sortBy "volume") as [->|_]; [done|].
  destruct (String.eqb_spec sortBy "volatility") as [->|_]; [done|].
  done.
Qed.

Lemma compare_unknown sortBy a b :
  known_key sortBy = false →
  sortedCoins_compare localeCompare sortBy a b = 0%Q.
Proof.
  unfold known_key, numeric_key, sortedCoins_compare.
  destruct (String.eqb sortBy "symbol"); [done|].
  destruct (String.eqb sortBy "price"); [done|].
  destruct (String.eqb sortBy "change"); [done|].
  destruct (String.eqb sortBy "volume"); [done|].
  destruct (String.eqb sortBy "volatility"); done.
Qed.

Global Instance desc_by_trans f : Transitive (desc_by f).
Proof. intros a b c. unfold desc_by. intros Hab Hbc. by eapply Qle_trans. Qed.

Lemma sort_desc (cmp : coin → coin → Q) (f : coin → Q) cs :
  (∀ a b, cmp a b = (f b - f a)%Q) →
  StronglySorted (desc_by f) (Array_sort cmp cs).
Proof.
  intros Hcmp. apply Sorted_StronglySorted; [apply _|].
  eapply Sorted_impl; [|apply (Array_sort_Sorted cmp)].
  - intros a b. unfold cmp_le, desc_by. rewrite Hcmp. apply Qsub_le0.
  - intros a b. unfold cmp_le. rewrite !Hcmp, !Qsub_le0.
    destruct (Qlt_le_dec (f a) (f b)); [right|left]; lra.
Qed.

(** With one of the four numeric sort keys, the cards are in descending
    order of that key, a missing or zero value counting as 0. *)
Theorem sortedCoins_descending (sortBy : string) (coins : positive)
    (h : gmap positive (list coin)) (cs : list coin) :
  h !! coins = Some cs → numeric_key sortBy = true →
  ∃ r s, render localeCompare sortBy coins h = Some r ∧
    heap_after r !! sortedCoins r = Some s ∧ s ≡ₚ cs ∧
    StronglySorted (desc_by (sort_key sortBy)) s.
Proof.
  intros Hcs Hkey.
  destruct (render_arrays sortBy coins h cs Hcs) as (r & Hr & Hs & _).
  exists r. eexists. split_and!; [done|done|apply Array_sort_Permutation|].
  apply sort_desc. intros a b. by apply compare_numeric.
Qed.

(** With a sort key the [switch] does not know, the cards keep the order
    of the fetched list. *)
Theorem unknown_key_keeps_order (sortBy : string) (coins : positive)
    (h : gmap positive (list coin)) (cs : list coin) :
  h !! coins = Some cs → known_key sortBy = false →
  ∃ r, render localeCompare sortBy coins h = Some r ∧
    heap_after r !! sortedCoins r = Some cs.
Proof.
  intros Hcs Hkey.
  destruct (render_arrays sortBy coins h cs Hcs) as (r & Hr & Hs & _).
  exists r. split; [done|]. rewrite Hs. f_equal.
  apply Array_sort_sorted_id.
  assert (∀ l : list coin, Sorted (cmp_le (sortedCoins_compare localeCompare sortBy)) l)
    as Hall; [|apply Hall].
  induction l as [|a l IH]; constructor; [done|].
  destruct l; constructor. unfold cmp_le. by rewrite compare_unknown.
Qed.

(** The top movers are the [min 5 n] coins that moved most: they come in
    descending size of their 24h change, and no coin left out moved more
    than one that is shown. *)
Theorem topMovers_largest (sortBy : string) (coins : positive)
    (h : gmap positive (list coin)) (cs : list coin) :
  h !! coins = Some cs →
  ∃ r t rest, render localeCompare sortBy coins h = Some r ∧
    heap_after r !! topMovers r = Some t ∧
    (t ++ rest)%list ≡ₚ cs ∧
    length t = min 5 (length cs) ∧
    StronglySorted (desc_by move) t ∧
    ∀ a b, a ∈ t → b ∈ rest → (move b <= move a)%Q.
Proof.
  intros Hcs.
  destruct (render_arrays sortBy coins h cs Hcs) as (r & Hr & _ & Ht).
  assert (StronglySorted (desc_by move) (Array_sort topMovers_compare cs))
    as Hs by (by apply sort_desc).
  rewrite <- (take_drop 5 (Array_sort topMovers_compare cs)) in Hs.
  apply StronglySorted_app in Hs as (Hcross & Hs1 & _).
  exists r, (take 5 (Array_sort topMovers_compare cs)),
         (drop 5 (Array_sort topMovers_compare cs)).
  split_and!; try done.
  - rewrite take_drop. apply Array_sort_Permutation.
  - by rewrite length_take, Array_sort_length.
Qed.

(** Once the listing request has settled, the dashboard is never left on
    its loading screen: it shows the error of a rejection that has a
    message, the cards of a non-empty array (with the top-movers block),
    and the no-data panel in every other case. *)
Theorem dashboard_after_fetch (o : Compare.outcome (option (list coin))) :
  view localeCompare (on_settle o init) ≠ Loading ∧
  (∀ msg, view localeCompare (on_settle o init) = Error msg ↔
          o = Compare.Rejected msg ∧ msg ≠ "") ∧
  (view localeCompare (on_settle o init) = NoData ↔
     o = Compare.Rejected "" ∨ o = Compare.Fulfilled None
     ∨ o = Compare.Fulfilled (Some [])) ∧
  (∀ movers cards count,
     view localeCompare (on_settle o init) = Listing movers cards count →
     ∃ l, o = Compare.Fulfilled (Some l) ∧ l ≠ [] ∧ count = length l ∧
          cards ≡ₚ l ∧ movers ≠ [] ∧ length movers = min 5 (length l)).
Proof.
  destruct o as [[[|c l]|]|msg].
  - assert (view localeCompare (on_settle (Compare.Fulfilled (Some [])) init)
            = NoData) as -> by reflexivity.
    split_and!; try done.
    + intros msg. split; [done|]. by intros [[=] _].
    + split; auto.
  - assert (view localeCompare
              (on_settle (Compare.Fulfilled (Some (c :: l))) init)
            = Listing
                (take 5 (Array_sort topMovers_compare (c :: l)))
                (Array_sort (sortedCoins_compare localeCompare "symbol")
                   (c :: l))
                (length (c :: l))) as -> by reflexivity.
    split_and!; try done.
    + intros msg. split; [done|]. by intros [[=] _].
    + split; [done|]. intros [[=]|[[=]|[=]]].
    + intros movers cards count Heq. injection Heq as <- <- <-.
      exists (c :: l).
      assert (length (take 5 (Array_sort topMovers_compare (c :: l)))
              = min 5 (length (c :: l))) as Hlen
        by (by rewrite length_take, Array_sort_length).
      split_and!; try done.
      * apply (Array_sort_Permutation _ (c :: l)).
      * intros E. pose proof (f_equal length E) as E'.
        change (length (take 5 (Array_sort topMovers_compare (c :: l))) = 0)
          in E'.
        rewrite Hlen in E'. simpl in E'. lia.
  - assert (view localeCompare (on_settle (Compare.Fulfilled None) init)
            = NoData) as -> by reflexivity.
    split_and!; try done.
    + intros msg. split; [done|]. by intros [[=] _].
    + split; auto.
  - assert (view localeCompare (on_settle (Compare.Rejected msg) init)
            = if truthy (JStr msg) then Error msg else NoData) as ->
      by reflexivity.
    destruct (truthy (JStr msg)) eqn:Ht.
    + apply truthy_JStr in Ht. split_and!; try done.
      * intros m. split; [by intros [= <-]|]. by intros [[= <-] _].
      * split; [done|]. intros [[= ->]|[[=]|[=]]]. done.
    + assert (msg = "") as ->.
      { destruct (decide (msg = "")) as [|Hne]; [done|].
        apply truthy_JStr in Hne. congruence. }
      split_and!; try done.
      * intros m. split; [done|]. by intros [[= <-] ?].
      * split; auto.
Qed.

End dashboard_more.

Lemma sortedCoins_descending_witness :
  ∃ r s, Dashboard.render JS.default_compare "price" 1%positive
           Samples.heap_AB = Some r ∧
    Dashboard.heap_after r !! Dashboard.sortedCoins r = Some s ∧
    s ≡ₚ [Samples.coin_B; Samples.coin_A] ∧
    StronglySorted (DashboardPage.desc_by (DashboardPage.sort_key "price")) s.
Proof.
  apply (sortedCoins_descending JS.default_compare "price" 1%positive
           Samples.heap_AB); reflexivity.
Defined.

Lemma unknown_key_keeps_order_witness :
  ∃ r, Dashboard.render JS.default_compare "rank" 1%positive Samples.heap_AB
       = Some r ∧
    Dashboard.heap_after r !! Dashboard.sortedCoins r
    = Some [Samples.coin_B; Samples.coin_A].
Proof.
  apply (unknown_key_keeps_order JS.default_compare "rank" 1%positive
           Samples.heap_AB); reflexivity.
Defined.

Lemma topMovers_largest_witness :
  ∃ r t rest, Dashboard.render JS.default_compare "symbol" 1%positive
                Samples.heap_AB = Some r ∧
    Dashboard.heap_after r !! Dashboard.topMovers r = Some t ∧
    (t ++ rest)%list ≡ₚ [Samples.coin_B; Samples.coin_A] ∧
    length t = min 5 (length [Samples.coin_B; Samples.coin_A]) ∧
    StronglySorted (DashboardPage.desc_by DashboardPage.move) t ∧
    ∀ a b, a ∈ t → b ∈ rest →
           (DashboardPage.move b <= DashboardPage.move a)%Q.
Proof.
  apply (topMovers_largest JS.default_compare "symbol" 1%positive
           Samples.heap_AB); reflexivity.
Defined.

(** The two sample coins by price, and by size of move. *)
Example sorted_by_price :
  JS.Array_sort (Dashboard.sortedCoins_compare JS.default_compare "price")
    [Samples.coin_A; Samples.coin_B]
  = [Samples.coin_B; Samples.coin_A].
Proof. reflexivity. Qed.

Example movers_by_size :
  JS.Array_sort Dashboard.topMovers_compare [Samples.coin_B; Samples.coin_A]
  = [Samples.coin_A; Samples.coin_B].
Proof. reflexivity. Qed.


(** ** More on the candlestick chart *)

Section chart_more.
Import JS Charts ChartsSpec.

Lemma candle_of_bar i b :
  ∃ c, candle_of i (Some b)
       = (Read i <$> ["date"; "open"; "close"; "high"; "low"; "close"; "open";
                      "open"; "close"; "open"; "close"], inr c) ∧
       candle_for b c.
Proof.
  eexists. split; [reflexivity|]. unfold candle_for. simpl.
  split_and!; try done.
  - apply Q.le_min_l.
  - apply Q.le_min_r.
  - apply Q.le_max_l.
  - apply Q.le_max_r.
  - destruct (Qle_bool (open b) (close b)); auto.
  - destruct (Qle_bool (open b) (close b)) eqn:E.
    + apply Qle_bool_iff in E. done.
    + split; [done|]. intros H%Qle_bool_iff. congruence.
Qed.

Lemma candle_of_null i :
  candle_of i None = ([], inl null_element_error).
Proof. reflexivity. Qed.

Lemma map_from_cons i d rest :
  map_from i (d :: rest)
  = bind (candle_of i d) (λ c,
      bind (map_from (S i) rest) (λ cs, ret (c :: cs))).
Proof. reflexivity. Qed.

Lemma map_from_bars bars : ∀ i,
  ∃ t cs, map_from i (Some <$> bars) = (t, inr cs) ∧
    length t = 11 * length bars ∧ Forall2 candle_for bars cs.
Proof.
  induction bars as [|b bars IH]; intros i.
  - exists [], []. split_and!; [done|done|constructor].
  - destruct (candle_of_bar i b) as (c & Hc & Hbc).
    destruct (IH (S i)) as (t & cs & Ht & Hlen & Hall).
    rewrite fmap_cons, map_from_cons, Hc, Ht. eexists _, (c :: cs).
    split_and!; [reflexivity| |by constructor].
    rewrite app_nil_r, length_app, Hlen. simpl. lia.
Qed.

Lemma map_from_null d : ∀ i,
  None ∈ d → (map_from i d).2 = inl null_element_error.
Proof.
  induction d as [|[b|] d IH]; intros i Hd.
  - by apply elem_of_nil in Hd.
  - apply elem_of_cons in Hd as [?|Hd]; [done|].
    destruct (candle_of_bar i b) as (c & Hc & _).
    rewrite map_from_cons, Hc. specialize (IH (S i) Hd).
    unfold bind at 1. destruct (map_from (S i) d) as [t [e|cs]]; simpl in *.
    + done.
    + done.
  - by rewrite map_from_cons, candle_of_null.
Qed.

Lemma null_or_bars (d : list (option bar)) :
  None ∈ d ∨ ∃ bars, d = Some <$> bars.
Proof.
  induction d as [|[b|] d IH].
  - right. by exists [].
  - destruct IH as [Hd|[bars ->]].
    + left. by apply list_elem_of_further.
    + right. by exists (b :: bars).
  - left. apply list_elem_of_here.
Qed.

Lemma candlestick_shape (bars : list bar) :
  bars ≠ [] →
  ∃ t cs, CandlestickChart (Some (Some <$> bars)) = (t, inr (ComposedChart cs)).
Proof.
  intros Hne. destruct (map_from_bars bars 0) as (t & cs & Ht & _).
  exists t, cs. destruct bars as [|b bars]; [done|].
  change (CandlestickChart (Some (Some <$> b :: bars)))
    with (bind (map_from 0 (Some <$> b :: bars))
            (λ candleData, ret (ComposedChart candleData))).
  rewrite Ht. simpl. by rewrite app_nil_r.
Qed.



(** [CandlestickChart] raises exactly when its array holds a [null]
    element, and always with the [TypeError] of reading [date] from it;
    no chart is returned then. *)
Theorem candlestick_raises_iff_null (d : list (option bar)) :
  ((CandlestickChart (Some d)).2 = inl null_element_error ↔ None ∈ d) ∧
  ((∃ msg, (CandlestickChart (Some d)).2 = inl msg) ↔ None ∈ d).
Proof.
  assert (None ∈ d → (CandlestickChart (Some d)).2 = inl null_element_error)
    as Hraise.
  { intros Hd. destruct d as [|x d]; [by apply elem_of_nil in Hd|].
    change (CandlestickChart (Some (x :: d)))
      with (bind (map_from 0 (x :: d))
              (λ candleData, ret (ComposedChart candleData))).
    pose proof (map_from_null (x :: d) 0 Hd) as Hm.
    destruct (map_from 0 (x :: d)) as [t [e|cs]]; simpl in *;
      [by simplify_eq|discriminate Hm]. }
  assert ((∃ msg, (CandlestickChart (Some d)).2 = inl msg) → None ∈ d)
    as Hnull.
  { intros [msg Hmsg]. destruct (null_or_bars d) as [|[bars ->]]; [done|].
    exfalso.
    destruct bars as [|b bars]; [done|].
    destruct (candlestick_shape (b :: bars)) as (t & cs & E); [done|].
    rewrite E in Hmsg. done. }
  split; split; eauto.
Qed.

End chart_more.

(** ** More on the coin page *)

Section coin_page_more.
Import JS CoinDetail CoinDetailPage.

Lemma slice_last_length {A} n (l : list A) :
  length (slice_last n l) = min n (length l).
Proof. unfold slice_last. rewrite length_drop. lia. Qed.

Lemma price_action_None history : price_action history = None ↔ history = [].
Proof. unfold price_action. destruct history; simpl; split; done. Qed.

(** The chart of the coin page gets the last 60 bars of the history (all
    of them when there are fewer), is mounted only when there is a bar,
    and so never shows its "No data available" placeholder there. *)
Theorem price_action_chart (history : list (option Charts.bar)) :
  (price_action history = None ↔ history = []) ∧
  length (slice_last 60 history) = min 60 (length history) ∧
  slice_last 60 history `suffix_of` history ∧
  (∀ r, price_action history = Some r →
        r = Charts.CandlestickChart (Some (slice_last 60 history)) ∧
        ∀ text, r.2 ≠ inr (Charts.Placeholder text)).
Proof.
  split_and!.
  - apply price_action_None.
  - apply slice_last_length.
  - apply suffix_drop.
  - unfold price_action. destruct history as [|b history]; [done|].
    simpl Nat.ltb. cbv iota. intros r [= <-]. split; [done|].
    intros text.
    pose proof (slice_last_length 60 (b :: history)) as Hlen.
    destruct (slice_last 60 (b :: history)) as [|x l] eqn:E.
    { simpl in Hlen. lia. }
    apply chart_no_placeholder.
Qed.

(** Whatever the state, the tabs start at most one analytics request,
    and only for the tab that is open; without a coin id the page fetches
    nothing, with one it always fetches the coin and its history. *)
Theorem analytics_on_demand (API_URL : string) (coinId : option string)
    (st : state) :
  (length (analytics_requests API_URL coinId st) ≤ 1)%nat ∧
  (analytics_requests API_URL coinId st ≠ [] →
     activeTab st ∈ ["technical"; "prediction"; "onchain"]) ∧
  (no_coin coinId = true → requests API_URL coinId st = []) ∧
  (no_coin coinId = false →
     length (history_requests API_URL coinId st) = 2).
Proof.
  unfold analytics_requests, requests, history_requests, technical_requests,
    prediction_requests, onchain_requests.
  destruct coinId as [id|]; [|split_and!; (done || (simpl; lia))].
  destruct (no_coin (Some id)) eqn:Hno; cbn [orb negb app];
    [split_and!; (done || (simpl; lia))|].
  destruct (String.eqb_spec (activeTab st) "technical") as [->|N1].
  { split_and!; try done. intros _. apply list_elem_of_here. }
  destruct (String.eqb_spec (activeTab st) "prediction") as [->|N2].
  { split_and!; try done. intros _.
    apply list_elem_of_further, list_elem_of_here. }
  destruct (String.eqb_spec (activeTab st) "onchain") as [->|N3].
  { split_and!; try done. intros _.
    do 2 apply list_elem_of_further. apply list_elem_of_here. }
  split_and!; try done. simpl. lia.
Qed.

Lemma alnum_char c :
  is_upper c || is_lower c || is_digit c = true →
  upper_char (lower_char c) = upper_char c ∧
  Ascii.eqb (lower_char c) "/" = false ∧
  is_upper (upper_char c) || is_lower (upper_char c) || is_digit (upper_char c)
  = true ∧
  upper_char (upper_char c) = upper_char c.
Proof.
  destruct c as [[] [] [] [] [] [] [] []]; vm_compute;
    intros H; (discriminate H || by split_and!).
Qed.

Lemma alnum_lower_upper sym :
  alnum sym = true → toUpperCase (toLowerCase sym) = toUpperCase sym.
Proof.
  unfold alnum, toUpperCase, toLowerCase.
  induction sym as [|c s IH]; simpl; [done|].
  intros [Hc Hs]%andb_prop. apply alnum_char in Hc as (-> & _).
  by rewrite IH.
Qed.

Lemma alnum_no_slash sym :
  alnum sym = true → has_slash (toLowerCase sym) = false.
Proof.
  unfold alnum, toLowerCase.
  induction sym as [|c s IH]; simpl; [done|].
  intros [Hc Hs]%andb_prop. apply alnum_char in Hc as (_ & -> & _).
  by apply IH.
Qed.

Lemma alnum_toUpperCase sym :
  alnum sym = true →
  alnum (toUpperCase sym) = true ∧
  toUpperCase (toUpperCase sym) = toUpperCase sym.
Proof.
  unfold alnum, toUpperCase.
  induction sym as [|c s IH]; simpl; [done|].
  intros [Hc Hs]%andb_prop. apply alnum_char in Hc as (_ & _ & -> & ->).
  destruct (IH Hs) as [-> ->]. done.
Qed.

Lemma alnum_coinId sym :
  alnum sym = true → sym ≠ "" →
  coinId (route_id (CryptoCard.href sym)) = Some (toUpperCase sym).
Proof.
  intros Ha Hne. unfold CryptoCard.href.
  rewrite route_id_coin, alnum_no_slash by done.
  destruct (String.eqb_spec (toLowerCase sym) "") as [E|_].
  { by apply toLowerCase_empty in E. }
  simpl. by rewrite alnum_lower_upper.
Qed.

(** The link of a card does not depend on the case of the symbol: for a
    symbol of letters and digits the coin page works with the upper-cased
    symbol, the same as for the card of the upper-cased symbol. *)
Theorem card_link_ignores_case (sym : string) :
  alnum sym = true → sym ≠ "" →
  coinId (route_id (CryptoCard.href sym)) = Some (toUpperCase sym) ∧
  coinId (route_id (CryptoCard.href (toUpperCase sym)))
  = Some (toUpperCase sym) ∧
  ∀ API_URL st,
    requests API_URL (coinId (route_id (CryptoCard.href sym))) st
    = requests API_URL
        (coinId (route_id (CryptoCard.href (toUpperCase sym)))) st.
Proof.
  intros Ha Hne.
  destruct (alnum_toUpperCase sym Ha) as [Hau Hidem].
  assert (toUpperCase sym ≠ "") as Hne' by (by destruct sym).
  pose proof (alnum_coinId sym Ha Hne) as H1.
  pose proof (alnum_coinId (toUpperCase sym) Hau Hne') as H2.
  rewrite Hidem in H2. split_and!; [done|done|].
  intros API_URL st. by rewrite H1, H2.
Qed.

Lemma card_link_ignores_case_witness :
  coinId (route_id (CryptoCard.href "Btc")) = Some (toUpperCase "Btc") ∧
  coinId (route_id (CryptoCard.href (toUpperCase "Btc")))
  = Some (toUpperCase "Btc") ∧
  ∀ API_URL st,
    requests API_URL (coinId (route_id (CryptoCard.href "Btc"))) st
    = requests API_URL
        (coinId (route_id (CryptoCard.href (toUpperCase "Btc")))) st.
Proof.
  apply (card_link_ignores_case "Btc"); [reflexivity|discriminate].
Defined.

(** The bars a history body brings. *)
Lemma bars_of_nil hb : bars_of hb = [] ↔ no_bars hb.
Proof.
  unfold no_bars. destruct hb as [|[[|b l]|]]; simpl; split; auto;
    try done; intros [[=]|[[=]|[=]]].
Qed.

(** Once the first load has settled the coin page is never left on its
    loading screen. It shows "Coin not found" when a request was rejected
    or the details body is [null], and the detail view otherwise, with the
    chart exactly when the history body brought at least one bar. *)
Theorem coin_detail_after_load
    (o : Compare.outcome (option (gmap string jsval) * history_body)) :
  view (on_load o init) ≠ Loading ∧
  (view (on_load o init) = NotFound ↔
     (∃ msg, o = Compare.Rejected msg)
     ∨ ∃ hb, o = Compare.Fulfilled (None, hb)) ∧
  (∀ chart, view (on_load o init) = Detail chart →
     ∃ d hb, o = Compare.Fulfilled (Some d, hb) ∧
       (chart = None ↔ no_bars hb)).
Proof.
  destruct o as [[[d|] hb]|msg].
  - assert (view (on_load (Compare.Fulfilled (Some d, hb)) init)
            = Detail (price_action (bars_of hb))) as ->
      by (by destruct hb as [|[l|]]).
    split_and!; [done| |].
    + split; [done|]. intros [[msg [=]]|[hb' [=]]].
    + intros chart [= <-]. exists d, hb. split; [done|].
      rewrite price_action_None. apply bars_of_nil.
  - assert (view (on_load (Compare.Fulfilled (None, hb)) init) = NotFound)
      as -> by (by destruct hb as [|[l|]]).
    split_and!; [done| |done]. split; [eauto|done].
  - assert (view (on_load (Compare.Rejected msg) init) = NotFound) as ->
      by reflexivity.
    split_and!; [done| |done]. split; [eauto|done].
Qed.

End coin_page_more.
